(** * Technical-sheet extractor: boundary parsing and sheet materialisation

    A shallow embedding of [Pipeline._parse_boundaries],
    [Pipeline.extract_sheets] and [Pipeline.extract_sheets_to_pdf]
    (src/ai_processor/pipeline_modal.py) and of [add_page_identifiers]
    (src/ai_processor/document_processor.py), together with the part of the
    Python run time these functions rely on: exceptions, the values that
    [json.loads] produces, [float()], [int()], [str.find], [str.split].

    Modelling conventions.
    - A Python [str] is a [string] of 8-bit characters.  Characters outside
      ASCII are carried through unchanged; they are never read as digits or
      as white space.
    - A Python [float] is a binary64 number ([PrimFloat.float]).
    - A Python [int] is a [Z]; the interpreter's limits on the number of
      digits of an integer literal and on the depth of recursion are not
      modelled.
    - A raised exception is a value [Raise e]; a [try] block is a [match] on
      it.  Output printed under [self.debug] is not modelled.
    - The file system maps a path to a PDF document, a list of pages.  The
      external service and the construction of file names are parameters
      of the development.

    Further sections embed the construction of the file names of lines
    315-333 of pipeline_modal.py, with which the materializer is then run,
    the analysis of the pages of document_processor.py, and the import of
    utils/config.py.  There, as for digits and white space, a character
    outside ASCII is never read as a letter, and the search of a regular
    expression is a parameter. *)

From Stdlib Require Import ZArith String Ascii List Floats Lia Bool.
From stdpp Require Import base option list gmap strings pretty sorting.

Set Warnings "-register-all".
Open Scope Z_scope.

(** ** Exceptions *)

Module Py.

Inductive exn : Type :=
| ValueError
| TypeError
| OverflowError
| JSONDecodeError
| AttributeError
| FileNotFoundError
| OSError.

Inductive result (A : Type) : Type :=
| Ok (a : A)
| Raise (e : exn).
Arguments Ok {A} a.
Arguments Raise {A} e.

#[global] Instance result_ret : MRet result := fun A a => Ok a.
#[global] Instance result_bind : MBind result := fun A B f m =>
  match m with
  | Ok a => f a
  | Raise e => Raise e
  end.
#[global] Instance result_fmap : FMap result := fun A B f m =>
  match m with
  | Ok a => Ok (f a)
  | Raise e => Raise e
  end.

(** ** Values

    The values that [json.loads] can return, which are also the values the
    parser stores in its result dictionaries.  A [dict] keeps its keys in
    insertion order; every key in this program is a [str]. *)

Inductive value : Type :=
| PNone
| PBool (b : bool)
| PInt (z : Z)
| PFloat (f : float)
| PStr (s : string)
| PList (l : list value)
| PDict (d : list (string * value)).


(** ** Strings *)

(** [s.find(c)] for a one-character [c]: the least index, or [-1]. *)
Fixpoint find_from (c : ascii) (s : string) (i : Z) : Z :=
  match s with
  | EmptyString => -1
  | String a s' => if Ascii.eqb a c then i else find_from c s' (i + 1)
  end.

Definition find (c : ascii) (s : string) : Z := find_from c s 0.

(** [s.rfind(c)]: the greatest index, or [-1]. *)
Fixpoint rfind_from (c : ascii) (s : string) (i last : Z) : Z :=
  match s with
  | EmptyString => last
  | String a s' => rfind_from c s' (i + 1) (if Ascii.eqb a c then i else last)
  end.

Definition rfind (c : ascii) (s : string) : Z := rfind_from c s 0 (-1).

(** [s[lo:hi]] for [0 <= lo <= hi], the only slices taken here. *)
Definition slice (s : string) (lo hi : Z) : string :=
  substring (Z.to_nat lo) (Z.to_nat (hi - lo)) s.

Definition code (a : ascii) : Z := Z.of_N (N_of_ascii a).

(** [str.isspace] on ASCII: tab, line feed, vertical tab, form feed,
    carriage return, the four separators 0x1c-0x1f and the space. *)
Definition isspace (a : ascii) : bool :=
  let n := code a in
  ((9 <=? n) && (n <=? 13)) || ((28 <=? n) && (n <=? 32)).

Fixpoint lstrip (s : string) : string :=
  match s with
  | String a s' => if isspace a then lstrip s' else s
  | EmptyString => EmptyString
  end.

Fixpoint rstrip (s : string) : string :=
  match s with
  | String a s' =>
      match rstrip s' with
      | EmptyString => if isspace a then EmptyString else String a EmptyString
      | r => String a r
      end
  | EmptyString => EmptyString
  end.

Definition strip (s : string) : string := rstrip (lstrip s).

(** [s.split(c)]: one more piece than there are occurrences of [c]. *)
Fixpoint split (c : ascii) (s : string) : list string :=
  match s with
  | EmptyString => [EmptyString]
  | String a s' =>
      if Ascii.eqb a c then EmptyString :: split c s'
      else match split c s' with
           | p :: ps => String a p :: ps
           | [] => [String a EmptyString]
           end
  end.

Definition lower (a : ascii) : ascii :=
  let n := code a in
  if (65 <=? n) && (n <=? 90) then ascii_of_N (Z.to_N (n + 32)) else a.

Fixpoint lowercase (s : string) : string :=
  match s with
  | EmptyString => EmptyString
  | String a s' => String (lower a) (lowercase s')
  end.

(** ** Numbers *)

Definition digit_of (a : ascii) : option Z :=
  let n := code a in
  if (48 <=? n) && (n <=? 57) then Some (n - 48) else None.

(** A run of decimal digits in which single underscores may separate two
    digits (PEP 515).  [acc] is the number read so far, [n] the number of
    digits of the run read so far; the result also carries what follows
    the run. *)
Fixpoint scan_digits (s : string) (acc : Z) (n : nat) : Z * nat * string :=
  match s with
  | EmptyString => (acc, n, s)
  | String a s' =>
      match digit_of a with
      | Some d => scan_digits s' (10 * acc + d) (S n)
      | None =>
          match n, s' with
          | S _, String b s'' =>
              match Ascii.eqb a "_", digit_of b with
              | true, Some d => scan_digits s'' (10 * acc + d) (S n)
              | _, _ => (acc, n, s)
              end
          | _, _ => (acc, n, s)
          end
      end
  end.

(** An optional sign; [true] stands for [-]. *)
Definition scan_sign (s : string) : bool * string :=
  match s with
  | String "-" s' => (true, s')
  | String "+" s' => (false, s')
  | _ => (false, s)
  end.

(** [int(s)] for a [str]: white space around, a sign, decimal digits. *)
Definition int_of_str (s : string) : result Z :=
  let (neg, s1) := scan_sign (strip s) in
  match scan_digits s1 0 0 with
  | (z, S _, EmptyString) => Ok (if neg then - z else z)
  | _ => Raise ValueError
  end.

(** The binary64 number nearest to [m * 10 ^ e] for [m >= 0], ties to
    even.  For [e < 0] the quotient keeps at least 64 bits, and the
    remainder gives the position of the exact value between two
    neighbours. *)
Definition sf_of_decimal (neg : bool) (m e : Z) : spec_float :=
  match m with
  | Z0 => S754_zero neg
  | Zneg _ => S754_nan
  | Zpos _ =>
      if 0 <=? e then binary_normalize prec emax (m * 10 ^ e * (if neg then -1 else 1)) 0 false
      else
        let d := 10 ^ (- e) in
        let s := Z.max 0 (64 + Z.log2 d - Z.log2 m) in
        let (q, r) := Z.div_eucl (m * 2 ^ s) d in
        binary_round_aux prec emax neg q (- s) (new_location d r)
  end.

Definition float_of_decimal (neg : bool) (m e : Z) : float :=
  SF2Prim (sf_of_decimal neg m e).

(** The exponent part of a float literal, if any. *)
Definition scan_exponent (s : string) : option (Z * string) :=
  match s with
  | String c s1 =>
      if Ascii.eqb (lower c) "e" then
        let (neg, s2) := scan_sign s1 in
        match scan_digits s2 0 0 with
        | (x, S _, rest) => Some (if neg then - x else x, rest)
        | _ => None
        end
      else Some (0, s)
  | EmptyString => Some (0, s)
  end.

(** [float(s)] for a [str]. *)
Definition float_of_str (s : string) : result float :=
  let (neg, s1) := scan_sign (strip s) in
  let w := lowercase s1 in
  if String.eqb w "inf" || String.eqb w "infinity" then
    Ok (if neg then neg_infinity else infinity)
  else if String.eqb w "nan" then Ok nan
  else
    let '(m1, n1, s2) := scan_digits s1 0 0 in
    let '(m2, n2, s3) :=
      match s2 with
      | String "." s' => scan_digits s' m1 0
      | _ => (m1, O, s2)
      end in
    match (n1 + n2)%nat, scan_exponent s3 with
    | S _, Some (x, EmptyString) =>
        Ok (float_of_decimal neg m2 (x - Z.of_nat n2))
    | _, _ => Raise ValueError
    end.

(** [float(z)] for an [int]: an integer too large for a binary64 raises. *)
Definition float_of_int (z : Z) : result float :=
  match binary_normalize prec emax z 0 false with
  | S754_infinity _ => Raise OverflowError
  | x => Ok (SF2Prim x)
  end.

(** [int(f)] for a [float]: truncation towards zero. *)
Definition int_of_float (f : float) : result Z :=
  match Prim2SF f with
  | S754_nan => Raise ValueError
  | S754_infinity _ => Raise OverflowError
  | S754_zero _ => Ok 0
  | S754_finite s m e => Ok (cond_Zopp s (Z.shiftl (Zpos m) e))
  end.

(** [float(v)] *)
Definition py_float (v : value) : result float :=
  match v with
  | PFloat f => Ok f
  | PInt z => float_of_int z
  | PBool b => Ok (if b then 1%float else 0%float)
  | PStr s => float_of_str s
  | PNone | PList _ | PDict _ => Raise TypeError
  end.

(** [int(v)] *)
Definition py_int (v : value) : result Z :=
  match v with
  | PInt z => Ok z
  | PBool b => Ok (Z.b2z b)
  | PFloat f => int_of_float f
  | PStr s => int_of_str s
  | PNone | PList _ | PDict _ => Raise TypeError
  end.

(** [isinstance(v, int)]; [bool] is a subclass of [int]. *)
Definition isinstance_int (v : value) : bool :=
  match v with
  | PInt _ | PBool _ => true
  | _ => false
  end.

(** The integer an [int] instance stands for ([True == 1]). *)
Definition int_value (v : value) : option Z :=
  match v with
  | PInt z => Some z
  | PBool b => Some (Z.b2z b)
  | _ => None
  end.

(** [a >= b] on floats: false as soon as one side is a NaN. *)
Definition float_ge (a b : float) : bool := PrimFloat.leb b a.

(** ** Dictionaries *)

Fixpoint dict_lookup (k : string) (d : list (string * value)) : option value :=
  match d with
  | [] => None
  | (k', v) :: d' => if String.eqb k' k then Some v else dict_lookup k d'
  end.

(** [k in d] *)
Definition dict_has (k : string) (d : list (string * value)) : bool :=
  match dict_lookup k d with Some _ => true | None => false end.

(** [d.get(k, default)] *)
Definition dict_get (k : string) (default : value) (d : list (string * value)) : value :=
  match dict_lookup k d with Some v => v | None => default end.

(** [d[k] = v]: an existing key keeps its position. *)
Fixpoint dict_set (k : string) (v : value) (d : list (string * value))
  : list (string * value) :=
  match d with
  | [] => [(k, v)]
  | (k', v') :: d' =>
      if String.eqb k' k then (k, v) :: d' else (k', v') :: dict_set k v d'
  end.

(** [iter(v)]: a list yields its items, a dictionary its keys, a string
    its characters; nothing else can be iterated. *)
Fixpoint chars (s : string) : list value :=
  match s with
  | EmptyString => []
  | String a s' => PStr (String a EmptyString) :: chars s'
  end.

Definition py_iter (v : value) : result (list value) :=
  match v with
  | PList l => Ok l
  | PDict d => Ok (map (fun kv => PStr (fst kv)) d)
  | PStr s => Ok (chars s)
  | PNone | PBool _ | PInt _ | PFloat _ => Raise TypeError
  end.

End Py.

(** ** [json.loads]

    The decoder of the standard library in its default (strict) mode: white
    space is space, tab, line feed and carriage return; [NaN], [Infinity]
    and [-Infinity] are accepted; a number with a fraction or an exponent
    is a [float], any other an [int]; a repeated key keeps its first
    position and its last value; a control character inside a string is an
    error; [\uXXXX] escapes are stored in UTF-8. *)

Module Json.
Import Py.

Definition is_ws (a : ascii) : bool :=
  let n := code a in
  (n =? 32) || (n =? 9) || (n =? 10) || (n =? 13).

Fixpoint skip_ws (s : string) : string :=
  match s with
  | String a s' => if is_ws a then skip_ws s' else s
  | EmptyString => EmptyString
  end.

Definition hex_of (a : ascii) : option Z :=
  let n := code a in
  if (48 <=? n) && (n <=? 57) then Some (n - 48)
  else if (65 <=? n) && (n <=? 70) then Some (n - 55)
  else if (97 <=? n) && (n <=? 102) then Some (n - 87)
  else None.

Definition hex4 (a b c d : ascii) : option Z :=
  h1 ← hex_of a; h2 ← hex_of b; h3 ← hex_of c; h4 ← hex_of d;
  Some (((h1 * 16 + h2) * 16 + h3) * 16 + h4).

Definition byte (n : Z) : ascii := ascii_of_N (Z.to_N n).

(** The UTF-8 bytes of a code point (a lone surrogate is stored on three
    bytes like any other code point below 0x10000). *)
Definition utf8 (cp : Z) : string :=
  if cp <? 128 then String (byte cp) EmptyString
  else if cp <? 2048 then
    String (byte (192 + cp / 64)) (String (byte (128 + cp mod 64)) EmptyString)
  else if cp <? 65536 then
    String (byte (224 + cp / 4096))
      (String (byte (128 + (cp / 64) mod 64))
         (String (byte (128 + cp mod 64)) EmptyString))
  else
    String (byte (240 + cp / 262144))
      (String (byte (128 + (cp / 4096) mod 64))
         (String (byte (128 + (cp / 64) mod 64))
            (String (byte (128 + cp mod 64)) EmptyString))).

Definition is_high_surrogate (cp : Z) : bool := (55296 <=? cp) && (cp <=? 56319).
Definition is_low_surrogate (cp : Z) : bool := (56320 <=? cp) && (cp <=? 57343).

(** The character an escape letter stands for. *)
Definition simple_escape (e : ascii) : option ascii :=
  let n := code e in
  if (n =? 34) || (n =? 92) || (n =? 47) then Some e
  else if n =? 98 then Some (byte 8)
  else if n =? 102 then Some (byte 12)
  else if n =? 110 then Some (byte 10)
  else if n =? 114 then Some (byte 13)
  else if n =? 116 then Some (byte 9)
  else None.

(** The body of a string literal, after its opening quote: the decoded
    string and what follows the closing quote. *)
Fixpoint scanstring (s : string) : option (string * string) :=
  match s with
  | EmptyString => None
  | String a s' =>
      if code a =? 34 then Some (EmptyString, s')
      else if code a =? 92 then
        match s' with
        | String e s'' =>
            if code e =? 117 then
              match s'' with
              | String h1 (String h2 (String h3 (String h4 s3))) =>
                  cp ← hex4 h1 h2 h3 h4;
                  match s3 with
                  | String b1 (String b2 (String g1 (String g2 (String g3 (String g4 s4))))) =>
                      if is_high_surrogate cp && (code b1 =? 92) && (code b2 =? 117) then
                        cp2 ← hex4 g1 g2 g3 g4;
                        if is_low_surrogate cp2 then
                          '(r, rest) ← scanstring s4;
                          Some (utf8 (65536 + (cp - 55296) * 1024 + (cp2 - 56320)) +:+ r, rest)
                        else
                          '(r, rest) ← scanstring s3;
                          Some (utf8 cp +:+ r, rest)
                      else
                        '(r, rest) ← scanstring s3;
                        Some (utf8 cp +:+ r, rest)
                  | _ =>
                      '(r, rest) ← scanstring s3;
                      Some (utf8 cp +:+ r, rest)
                  end
              | _ => None
              end
            else
              c ← simple_escape e;
              '(r, rest) ← scanstring s'';
              Some (String c r, rest)
        | EmptyString => None
        end
      else if code a <? 32 then None
      else
        '(r, rest) ← scanstring s';
        Some (String a r, rest)
  end.

(** A run of plain digits. *)
Fixpoint scan_plain_digits (s : string) (acc : Z) (n : nat) : Z * nat * string :=
  match s with
  | String a s' =>
      match digit_of a with
      | Some d => scan_plain_digits s' (10 * acc + d) (S n)
      | None => (acc, n, s)
      end
  | EmptyString => (acc, n, s)
  end.

(** The integer part of a number: [0], or a digit from 1 to 9 followed by
    digits. *)
Definition scan_integer (s : string) : option (Z * string) :=
  match s with
  | String a s' =>
      match digit_of a with
      | Some 0 => Some (0, s')
      | Some d => let '(m, _, rest) := scan_plain_digits s' d 1 in Some (m, rest)
      | None => None
      end
  | EmptyString => None
  end.

(** A fraction is read only when a digit follows the point. *)
Definition scan_fraction (s : string) (m : Z) : Z * nat * string :=
  match s with
  | String a s' =>
      if code a =? 46 then
        match scan_plain_digits s' m 0 with
        | (m', S n, rest) => (m', S n, rest)
        | _ => (m, O, s)
        end
      else (m, O, s)
  | EmptyString => (m, O, s)
  end.

(** An exponent is read only when it has a digit. *)
Definition scan_exp (s : string) : option (Z * string) :=
  match s with
  | String a s1 =>
      if (code a =? 101) || (code a =? 69) then
        let (neg, s2) := scan_sign s1 in
        match scan_plain_digits s2 0 0 with
        | (x, S _, rest) => Some (if neg then - x else x, rest)
        | _ => None
        end
      else None
  | EmptyString => None
  end.

Definition scan_number (s : string) : option (value * string) :=
  let (neg, s1) :=
    match s with
    | String a s' => if code a =? 45 then (true, s') else (false, s)
    | EmptyString => (false, s)
    end in
  '(m, s2) ← scan_integer s1;
  let '(m', nfrac, s3) := scan_fraction s2 m in
  match nfrac, scan_exp s3 with
  | O, None => Some (PInt (if neg then - m else m), s3)
  | _, None => Some (PFloat (float_of_decimal neg m' (- Z.of_nat nfrac)), s3)
  | _, Some (x, s4) => Some (PFloat (float_of_decimal neg m' (x - Z.of_nat nfrac)), s4)
  end.

(** [s] without the prefix [p], when [s] starts with [p]. *)
Fixpoint strip_prefix (p s : string) : option string :=
  match p, s with
  | EmptyString, _ => Some s
  | String a p', String b s' => if Ascii.eqb a b then strip_prefix p' s' else None
  | String _ _, EmptyString => None
  end.

Definition scan_constant (s : string) : option (value * string) :=
  match strip_prefix "null" s with Some r => Some (PNone, r) | None =>
  match strip_prefix "true" s with Some r => Some (PBool true, r) | None =>
  match strip_prefix "false" s with Some r => Some (PBool false, r) | None =>
  match strip_prefix "NaN" s with Some r => Some (PFloat nan, r) | None =>
  match strip_prefix "Infinity" s with Some r => Some (PFloat infinity, r) | None =>
  match strip_prefix "-Infinity" s with Some r => Some (PFloat neg_infinity, r) | None =>
  None end end end end end end.

(** A string, a constant or a number at the head of [s]. *)
Definition scan_scalar (s : string) : option (value * string) :=
  match s with
  | EmptyString => None
  | String a s' =>
      if code a =? 34 then
        '(str, rest) ← scanstring s'; Some (PStr str, rest)
      else
        match scan_constant s with
        | Some r => Some r
        | None => scan_number s
        end
  end.

(** One value at the head of [s].  A call consumes a character before it
    recurses, so a value that takes [k] characters is read with fuel [2 * k]
    ([scan_once_enough] below). *)
Fixpoint scan_once (fuel : nat) (s : string) : option (value * string) :=
  match fuel with
  | O => None
  | S fuel' =>
      match s with
      | EmptyString => None
      | String a s' =>
          if code a =? 91 then
            match skip_ws s' with
            | String b rest =>
                if code b =? 93 then Some (PList [], rest)
                else scan_items fuel' (skip_ws s') []
            | EmptyString => None
            end
          else if code a =? 123 then
            match skip_ws s' with
            | String b rest =>
                if code b =? 125 then Some (PDict [], rest)
                else scan_pairs fuel' (skip_ws s') []
            | EmptyString => None
            end
          else scan_scalar s
      end
  end

(** The items of an array, from the head of an item on. *)
with scan_items (fuel : nat) (s : string) (acc : list value)
  : option (value * string) :=
  match fuel with
  | O => None
  | S fuel' =>
      '(v, s1) ← scan_once fuel' s;
      match skip_ws s1 with
      | String b rest =>
          if code b =? 93 then Some (PList (acc ++ [v]), rest)
          else if code b =? 44 then scan_items fuel' (skip_ws rest) (acc ++ [v])
          else None
      | EmptyString => None
      end
  end

(** The pairs of an object, from the opening quote of a key on. *)
with scan_pairs (fuel : nat) (s : string) (acc : list (string * value))
  : option (value * string) :=
  match fuel with
  | O => None
  | S fuel' =>
      match s with
      | String q s0 =>
          if code q =? 34 then
            '(key, s1) ← scanstring s0;
            match skip_ws s1 with
            | String c s2 =>
                if code c =? 58 then
                  '(v, s3) ← scan_once fuel' (skip_ws s2);
                  match skip_ws s3 with
                  | String b rest =>
                      if code b =? 125 then Some (PDict (dict_set key v acc), rest)
                      else if code b =? 44 then
                        scan_pairs fuel' (skip_ws rest) (dict_set key v acc)
                      else None
                  | EmptyString => None
                  end
                else None
            | EmptyString => None
            end
          else None
      | EmptyString => None
      end
  end.

(** [json.loads(s)] *)
Definition loads (s : string) : result value :=
  match scan_once (2 * String.length s + 2) (skip_ws s) with
  | Some (v, rest) =>
      match skip_ws rest with
      | EmptyString => Ok v
      | String _ _ => Raise JSONDecodeError
      end
  | None => Raise JSONDecodeError
  end.

End Json.

(** * The pipeline *)

Import Py.
Set Warnings "-inexact-float".

(** The attributes of a [Pipeline] object that its methods read. *)
Record Pipeline : Type := {
  debug : bool;
  confidence_threshold : float;
  output_dir : string
}.

(** [for x in l: st = body(st, x)], stopping at the first exception. *)
Fixpoint for_each {S A : Type} (body : S -> A -> result S) (l : list A) (st : S)
  : result S :=
  match l with
  | [] => Ok st
  | x :: l' => st' ← body st x; for_each body l' st'
  end.

(** [[f(x) for x in l]], stopping at the first exception. *)
Fixpoint comprehension {A B : Type} (f : A -> result B) (l : list A)
  : result (list B) :=
  match l with
  | [] => Ok []
  | x :: l' => y ← f x; ys ← comprehension f l'; Ok (y :: ys)
  end.

(** ** [_parse_boundaries], lines 59-137 *)

(** Lines 86-91. *)
Definition get_confidence (b : list (string * value)) : result float :=
  match dict_lookup "confidence" b with
  | Some v =>
      match py_float v with
      | Ok f => Ok f
      | Raise ValueError | Raise TypeError => Ok 0.7%float
      | Raise e => Raise e
      end
  | None => Ok 0.7%float
  end.

(** Lines 108-111: [[int(p.strip()) for p in s.split(",")]]. *)
Definition comma_separated (s : string) : result (list value) :=
  comprehension (fun p => PInt <$> int_of_str (strip p)) (split "," s).

(** Lines 99-113: the value bound to [pages] before the coercion. *)
Definition read_pages (bp : value) : result value :=
  match bp with
  | PList l => Ok (PList l)
  | PStr s =>
      match Json.loads s with
      | Ok v => Ok v
      | Raise JSONDecodeError =>
          match comma_separated s with
          | Ok l => Ok (PList l)
          | Raise ValueError => Ok (PList [])
          | Raise e => Raise e
          end
      | Raise e => Raise e
      end
  | _ => Ok (PList [])
  end.

(** Line 117: [int(p) if not isinstance(p, int) else p]. *)
Definition coerce_page (p : value) : result value :=
  if isinstance_int p then Ok p else PInt <$> py_int p.

(** Lines 96-118. *)
Definition process_pages (b : list (string * value)) : result (list value) :=
  match dict_lookup "pages" b with
  | Some bp =>
      pages ← read_pages bp;
      items ← py_iter pages;
      comprehension coerce_page items
  | None => Ok []
  end.

(** Lines 121-126: the dictionary appended to [normalized]. *)
Definition boundary (product pages confidence reason : value) : value :=
  PDict [("product", product); ("pages", pages);
         ("confidence", confidence); ("reason", reason)].

(** Lines 81-127: the body of the loop over [boundaries]. *)
Definition normalize (self : Pipeline) (normalized : list value) (b : value)
  : result (list value) :=
  match b with
  | PDict d =>
      confidence ← get_confidence d;
      if float_ge confidence (confidence_threshold self) then
        pages ← process_pages d;
        Ok (normalized ++
              [boundary (dict_get "product" (PStr "Unnamed Product") d)
                 (PList pages) (PFloat confidence)
                 (dict_get "reason" (PStr EmptyString) d)])
      else Ok normalized
  | _ => Ok normalized
  end.

(** Line 74: [start_idx >= 0 and end_idx > start_idx]. *)
Definition has_array (response : string) : bool :=
  let start_idx := find "[" response in
  let end_idx := rfind "]" response in
  (0 <=? start_idx) && (start_idx <? end_idx).

(** Line 75: [response[start_idx : end_idx + 1]]. *)
Definition json_str (response : string) : string :=
  let start_idx := find "[" response in
  let end_idx := rfind "]" response in
  slice response start_idx (end_idx + 1).

(** Lines 71-133: the body of the [try] block. *)
Definition parse_body (self : Pipeline) (response : string) : result (list value) :=
  if has_array response then
    boundaries ← Json.loads (json_str response);
    items ← py_iter boundaries;
    for_each (normalize self) items []
  else Ok [].

(** Lines 69-137: [except Exception] turns every exception into [[]]. *)
Definition _parse_boundaries (self : Pipeline) (response : string) : list value :=
  match parse_body self response with
  | Ok normalized => normalized
  | Raise _ => []
  end.

(** An element of the decoded array passes the test of line 94. *)
Definition accepted (self : Pipeline) (b : value) : bool :=
  match b with
  | PDict d =>
      match get_confidence d with
      | Ok c => float_ge c (confidence_threshold self)
      | Raise _ => false
      end
  | _ => false
  end.

(** [x] is the dictionary that the loop body appends for the element [b]. *)
Definition produced (self : Pipeline) (b x : value) : Prop :=
  ∃ d c ps,
    b = PDict d ∧ get_confidence d = Ok c ∧
    float_ge c (confidence_threshold self) = true ∧
    process_pages d = Ok ps ∧
    x = boundary (dict_get "product" (PStr "Unnamed Product") d) (PList ps)
          (PFloat c) (dict_get "reason" (PStr EmptyString) d).

(** Test inputs are written with an apostrophe wherever the response has a
    double quote. *)
Fixpoint dq (s : string) : string :=
  match s with
  | EmptyString => EmptyString
  | String a r => String (if Ascii.eqb a "'" then ascii_of_N 34 else a) (dq r)
  end.

Definition pipeline (threshold : float) : Pipeline :=
  {| debug := true; confidence_threshold := threshold; output_dir := "output" |}.

(** ** Files

    The file system holds PDF documents, each a list of pages.  A
    computation that reads or writes files takes the file system and
    returns it changed, with a result or with the exception that stopped
    it; what was written before the exception stays written. *)

Inductive outcome (S A : Type) : Type :=
| Done (a : A) (s : S)
| Failed (e : exn) (s : S).
Arguments Done {S A} a s.
Arguments Failed {S A} e s.

Definition io (S A : Type) : Type := S -> outcome S A.

#[global] Instance io_ret {S} : MRet (io S) := fun A a s => Done a s.
#[global] Instance io_bind {S} : MBind (io S) := fun A B f m s =>
  match m s with
  | Done a s' => f a s'
  | Failed e s' => Failed e s'
  end.

(** A computation without effect on the files. *)
Definition lift {S A} (r : result A) : io S A := fun s =>
  match r with
  | Ok a => Done a s
  | Raise e => Failed e s
  end.

(** [for x in l: st = body(st, x)] with effects. *)
Fixpoint for_each_io {S St A : Type} (body : St -> A -> io S St) (l : list A) (st : St)
  : io S St :=
  match l with
  | [] => mret st
  | x :: l' => st' ← body st x; for_each_io body l' st'
  end.

(** [os.path.basename] and [os.path.join] on a POSIX system. *)
Definition basename (p : string) : string :=
  slice p (rfind "/" p + 1) (Z.of_nat (String.length p)).

Definition ends_with_slash (a : string) : bool :=
  rfind "/" a + 1 =? Z.of_nat (String.length a).

Definition path_join (a b : string) : string :=
  match b with
  | String "/" _ => b
  | _ =>
      match a with
      | EmptyString => b
      | _ => if ends_with_slash a then a +:+ b else a +:+ "/" +:+ b
      end
  end.

(** [bool(v)] *)
Definition truthy (v : value) : bool :=
  match v with
  | PNone => false
  | PBool b => b
  | PInt z => negb (z =? 0)
  | PFloat f => negb (PrimFloat.eqb f 0)
  | PStr s => negb (String.eqb s EmptyString)
  | PList l => match l with [] => false | _ => true end
  | PDict d => match d with [] => false | _ => true end
  end.

Section Materializer.

(** The content of a page, and [page.insert_text(point, text, ...)]. *)
Context {page : Type}.
Variable insert_text : string -> page -> page.

(** [analyze_pdf_structure] and the chat completion of the external
    service, which sees the uploaded document and the analysis. *)
Context {analysis : Type}.
Variable analyze : list page -> analysis.
Variable chat_complete : list page -> analysis -> string.

(** [Config.OUTPUT_DIR] *)
Variable OUTPUT_DIR : string.

(** Lines 281-282 and 315-333 of pipeline_modal.py: the directory of the
    sheets of a catalogue, and the path of one sheet, computed from that
    directory, the product name, the 0-indexed page list and the
    confidence.  No property below depends on what these strings are. *)
Variable output_subdir : string -> string -> string.
Variable sheet_path : string -> value -> list Z -> value -> result string.

(** Whether a file can be written at a path. *)
Variable writable : string -> bool.

Local Abbreviation files := (gmap string (list page)).

(** [fitz.open(path)] *)
Definition fitz_open (path : string) : io files (list page) := fun fs =>
  match fs !! path with
  | Some doc => Done doc fs
  | None => Failed FileNotFoundError fs
  end.

(** [doc.save(path)] *)
Definition save (path : string) (doc : list page) : io files unit := fun fs =>
  if writable path then Done tt (<[path := doc]> fs) else Failed OSError fs.

(** document_processor.py, lines 125-148: the two markers of a page. *)
Definition stamp (page_num : nat) (pg : page) : page :=
  insert_text ("<page:" +:+ pretty (page_num + 1)%nat +:+ ">")
    (insert_text ("PAGE-ID: " +:+ pretty (page_num + 1)%nat) pg).

(** document_processor.py, lines 121-152. *)
Definition add_page_identifiers (pdf_path output_path : string) : io files string :=
  doc ← fitz_open pdf_path;
  _ ← save output_path (imap stamp doc);
  mret output_path.

(** document_processor.py, lines 155-180, without the analysis file,
    which is JSON text and is never read back. *)
Definition document_processor_main (catalog_pdf_path : string)
  : io files (string * analysis) :=
  let enhanced_pdf_path :=
    path_join OUTPUT_DIR ("enhanced_" +:+ basename catalog_pdf_path) in
  enhanced_pdf_path ← add_page_identifiers catalog_pdf_path enhanced_pdf_path;
  doc ← fitz_open enhanced_pdf_path;
  mret (enhanced_pdf_path, analyze doc).

(** ocr_analyzer.py, [OCRAnalyzer.process_file]: the file is uploaded and
    the reply of the service is returned. *)
Definition process_file (pdf_filename : string) (document_analysis : analysis)
  : io files string :=
  doc ← fitz_open pdf_filename;
  mret (chat_complete doc document_analysis).

(** Lines 164-196.  The attributes [last_response] and [tech_sheet_pages]
    that the method sets are read nowhere in the code modelled here. *)
Definition extract_sheets (self : Pipeline) (pdf_path : string)
  : io files (list value) :=
  '(enhanced_pdf_path, document_analysis) ← document_processor_main pdf_path;
  response ← process_file enhanced_pdf_path document_analysis;
  mret (_parse_boundaries self response).

(** Line 301 without [sorted]: [[p - 1 for p in page_list if p > 0 and
    p <= len(doc)]].  The pages of a parsed boundary are [int] instances;
    for any other value the model raises [TypeError]. *)
Definition in_range (n : Z) (pages : list Z) : list Z :=
  (fun p => p - 1) <$> filter (fun p => 0 < p ∧ p ≤ n) pages.

Definition select_pages (n : Z) (page_list : value) : result (list Z) :=
  items ← py_iter page_list;
  zs ← comprehension
         (fun p => match int_value p with
                   | Some z => Ok z
                   | None => Raise TypeError
                   end) items;
  Ok (in_range n zs).

(** Lines 309-313: [insert_pdf] appends one page of [doc] at a time. *)
Definition copy_pages (doc : list page) (page_list : list Z) : result (list page) :=
  for_each (fun new_doc page_num =>
              match doc !! Z.to_nat page_num with
              | Some pg => Ok (new_doc ++ [pg])
              | None => Raise ValueError
              end) page_list [].

(** Lines 291-339: the body of the loop over the sheets. *)
Definition materialize_sheet (subdir : string) (doc : list page)
    (extracted_paths : list string) (entry : nat * value)
  : io files (list string) :=
  let (i, sheet) := entry in
  match sheet with
  | PDict d =>
      let product_name :=
        dict_get "product" (PStr ("Product_" +:+ pretty (i + 1)%nat)) d in
      let page_list := dict_get "pages" (PList []) d in
      if negb (truthy page_list) then mret extracted_paths
      else
        unsorted ← lift (select_pages (Z.of_nat (length doc)) page_list);
        let page_list := merge_sort Z.le unsorted in
        match page_list with
        | [] => mret extracted_paths
        | _ =>
            new_doc ← lift (copy_pages doc page_list);
            path ← lift (sheet_path subdir product_name page_list
                           (dict_get "confidence" (PFloat 0.5) d));
            _ ← save path new_doc;
            mret (extracted_paths ++ [path])
        end
  | _ => lift (Raise AttributeError)
  end.

(** [enumerate(sheets)] *)
Definition enumerate {A} (l : list A) : list (nat * A) := imap pair l.

(** Lines 275-354, once the sheets are known; the creation of the
    directory and the closing of the documents are left out. *)
Definition materialize (self : Pipeline) (pdf_path : string) (sheets : list value)
  : io files (list string) :=
  match sheets with
  | [] => mret []
  | _ =>
      let subdir := output_subdir (output_dir self) pdf_path in
      doc ← fitz_open pdf_path;
      for_each_io (materialize_sheet subdir doc) (enumerate sheets) []
  end.

(** Lines 256-354. *)
Definition extract_sheets_to_pdf (self : Pipeline) (pdf_path : string)
  : io files (list string) :=
  sheets ← extract_sheets self pdf_path;
  materialize self pdf_path sheets.

End Materializer.

(** ** Reading the result of a run *)

(** The value returned, if the run ended without an exception. *)
Definition returned {S A : Type} (o : outcome S A) : option A :=
  match o with
  | Done a _ => Some a
  | Failed _ _ => None
  end.

(** The content of the file at [path] when the run ended, however it
    ended. *)
Definition written {page A : Type} (o : outcome (gmap string (list page)) A)
    (path : string) : option (list page) :=
  match o with
  | Done _ fs => fs !! path
  | Failed _ fs => fs !! path
  end.

(** The page list of a boundary as section 4.3 of the specification words
    it: converted to 0-indexed, filtered to the valid range, deduplicated
    and sorted ascending. *)
Definition claimed_page_list (total_pages : Z) (pages : list Z) : list Z :=
  merge_sort Z.le
    (remove_dups
       (filter (fun q => 0 ≤ q ∧ q ≤ total_pages - 1) ((fun p => p - 1) <$> pages))).

(** A string without the character [/]. *)
Fixpoint slash_free (s : string) : Prop :=
  match s with
  | EmptyString => True
  | String a s' => a ≠ "/"%char ∧ slash_free s'
  end.

(** ** A small catalogue for the examples

    The sheets of a catalogue go to a directory named after it, and a sheet
    is named after its first page.  A page of the ten-page catalogue is its
    own number; a page of the one-page catalogue is the list of the texts
    on it, to which [insert_text] adds one. *)
Definition demo_subdir (output_dir pdf_path : string) : string :=
  output_dir +:+ "/" +:+ pdf_path +:+ "_sheets".

Definition demo_sheet_path (subdir : string) (product_name : value)
    (page_list : list Z) (confidence : value) : result string :=
  Ok (subdir +:+ "/sheet_" +:+ pretty (hd 0 page_list + 1) +:+ ".pdf").

Definition ten_pages : list nat := seq 1 10.

Definition demo_files : gmap string (list nat) := {[ "cat.pdf" := ten_pages ]}.

Definition demo_insert_text (text : string) (pg : list string) : list string :=
  pg ++ [text].

Definition demo_reply (doc : list (list string)) (document_analysis : unit) : string :=
  dq "[{'product': 'A', 'confidence': 0.9, 'pages': [1]}]".

(** A boundary as the parser returns it, with the given product and pages. *)
Definition sheet_of (product : string) (pages : list Z) : value :=
  boundary (PStr product) (PList (PInt <$> pages)) (PFloat 0.9) (PStr EmptyString).

(** Every path can be written, or every path but that of the sheet that
    starts at page 2. *)
Definition always (path : string) : bool := true.

Definition sheet_2_locked (path : string) : bool :=
  negb (String.eqb path "output/cat.pdf_sheets/sheet_2.pdf").

(** A run of the materializer on the ten-page catalogue. *)
Definition demo_materialize (writable : string -> bool) (sheets : list value)
  : outcome (gmap string (list nat)) (list string) :=
  materialize demo_subdir demo_sheet_path writable (pipeline 0.6) "cat.pdf"
    sheets demo_files.

(** A run of the whole pipeline on a catalogue of one page, for which the
    external service answers with one boundary on page 1. *)
Definition one_page_files : gmap string (list (list string)) :=
  {[ "cat.pdf" := [["body"]] ]}.

Definition demo_extract : outcome (gmap string (list (list string))) (list string) :=
  extract_sheets_to_pdf demo_insert_text (fun _ => tt) demo_reply "../data/output"
    demo_subdir demo_sheet_path always (pipeline 0.6) "cat.pdf" one_page_files.

(** A run of [n] zeros. *)
Fixpoint zeros (n : nat) : string :=
  match n with
  | O => EmptyString
  | S n' => String "0" (zeros n')
  end.

(** * More of the pipeline: file names *)

(** [needle in hay] for two [str]. *)
Fixpoint starts_with (p s : string) : bool :=
  match p, s with
  | EmptyString, _ => true
  | String a p', String b s' => Ascii.eqb a b && starts_with p' s'
  | String _ _, EmptyString => false
  end.

Fixpoint contains (needle hay : string) : bool :=
  starts_with needle hay ||
  match hay with
  | EmptyString => false
  | String _ hay' => contains needle hay'
  end.

(** [s.replace(a, b)] for two one-character strings. *)
Fixpoint replace_char (a b : ascii) (s : string) : string :=
  match s with
  | EmptyString => EmptyString
  | String c s' => String (if Ascii.eqb c a then b else c) (replace_char a b s')
  end.

(** [c.isalnum()] on ASCII: a digit or a letter. *)
Definition isalnum (a : ascii) : bool :=
  let n := code a in
  ((48 <=? n) && (n <=? 57)) || ((65 <=? n) && (n <=? 90)) ||
  ((97 <=? n) && (n <=? 122)).

Fixpoint all_alnum (s : string) : bool :=
  match s with
  | EmptyString => true
  | String a s' => isalnum a && all_alnum s'
  end.

(** [s.isalnum()]: at least one character, all of them alphanumeric. *)
Definition str_isalnum (s : string) : bool :=
  match s with
  | EmptyString => false
  | String _ _ => all_alnum s
  end.

(** A string of ASCII characters, on which the model of [isalnum] and of
    [len] is that of Python. *)
Fixpoint is_ascii (s : string) : Prop :=
  match s with
  | EmptyString => True
  | String a s' => code a < 128 ∧ is_ascii s'
  end.

(** Line 317: [c if c.isalnum() or c in " -_" else "_"], for an item of
    the product name. *)
Definition sanitize_item (c : value) : result string :=
  match c with
  | PStr c => Ok (if str_isalnum c || contains c " -_" then c else "_")
  | _ => Raise AttributeError
  end.

(** Lines 316-323. *)
Definition safe_name (product_name : value) : result string :=
  items ← py_iter product_name;
  parts ← comprehension sanitize_item items;
  let safe_name := String.concat EmptyString parts in
  let safe_name := replace_char " " "_" (strip safe_name) in
  Ok (if (50 <? String.length safe_name)%nat
      then substring 0 47 safe_name +:+ "..."
      else safe_name).

(** [min(l)] and [max(l)], which raise on an empty list. *)
Definition py_min (l : list Z) : result Z :=
  match l with
  | [] => Raise ValueError
  | x :: l' => Ok (foldl Z.min x l')
  end.

Definition py_max (l : list Z) : result Z :=
  match l with
  | [] => Raise ValueError
  | x :: l' => Ok (foldl Z.max x l')
  end.

(** The two digits of a number below 100. *)
Definition two_digits (n : Z) : string :=
  pretty (n / 10) +:+ pretty (n mod 10).

(** [format(f, ".2f")] for a [float]: the exact value is rounded to
    hundredths, ties to even. *)
Definition hundredths (m : positive) (e : Z) : Z :=
  if 0 <=? e then Zpos m * 100 * 2 ^ e
  else
    let d := 2 ^ (- e) in
    let (q, r) := Z.div_eucl (Zpos m * 100) d in
    match 2 * r ?= d with
    | Lt => q
    | Gt => q + 1
    | Eq => if Z.even q then q else q + 1
    end.

Definition format_float_2f (f : float) : string :=
  match Prim2SF f with
  | S754_nan => "nan"
  | S754_infinity s => if s then "-inf" else "inf"
  | S754_zero s => if s then "-0.00" else "0.00"
  | S754_finite s m e =>
      let n := hundredths m e in
      (if s then "-" else EmptyString) +:+ pretty (n / 100) +:+ "." +:+
      two_digits (n mod 100)
  end.

(** [format(v, ".2f")]: an [int] is converted to a [float] first. *)
Definition format_2f (v : value) : result string :=
  match v with
  | PFloat f => Ok (format_float_2f f)
  | PInt _ | PBool _ => format_float_2f <$> py_float v
  | PStr _ => Raise ValueError
  | PNone | PList _ | PDict _ => Raise TypeError
  end.

(** Lines 326-328. *)
Definition page_range (page_list : list Z) : result string :=
  lo ← py_min page_list;
  hi ← py_max page_list;
  Ok (match page_list with
      | [p] => "p" +:+ pretty (p + 1)
      | _ => "p" +:+ pretty (lo + 1) +:+ "-" +:+ pretty (hi + 1)
      end).

(** Lines 316-332: the name of the file of a sheet. *)
Definition output_filename (product_name : value) (page_list : list Z)
    (confidence : value) : result string :=
  safe_name ← safe_name product_name;
  page_range ← page_range page_list;
  first_page ← (fun lo => lo + 1) <$> py_min page_list;
  conf ← format_2f confidence;
  Ok ("sheet_" +:+ pretty first_page +:+ "_" +:+ safe_name +:+ "_" +:+
      page_range +:+ "_conf" +:+ conf +:+ ".pdf").

(** Lines 316-333: the path of the file of a sheet; this is the function
    that the materializer is run with. *)
Definition output_path (output_subdir : string) (product_name : value)
    (page_list : list Z) (confidence : value) : result string :=
  path_join output_subdir <$> output_filename product_name page_list confidence.

(** Every character of [s] passes the test [P]. *)
Fixpoint chars_all (P : ascii -> bool) (s : string) : Prop :=
  match s with
  | EmptyString => True
  | String a s' => P a = true ∧ chars_all P s'
  end.

(** The characters that line 317 keeps, and the characters of the name
    after line 319, the points of a truncated name included. *)
Definition kept_char (a : ascii) : bool :=
  isalnum a || Ascii.eqb a " " || Ascii.eqb a "-" || Ascii.eqb a "_".

Definition name_char (a : ascii) : bool :=
  isalnum a || Ascii.eqb a "-" || Ascii.eqb a "_" || Ascii.eqb a ".".

(** The materializer as the pipeline runs it, on the ten-page catalogue. *)
Definition demo_named (sheets : list value)
  : outcome (gmap string (list nat)) (list string) :=
  materialize demo_subdir output_path always (pipeline 0.6) "cat.pdf"
    sheets demo_files.

(** ** Texts for the properties of the parser *)

(** A string without the character [c]. *)
Fixpoint char_free (c : ascii) (s : string) : Prop :=
  match s with
  | EmptyString => True
  | String a s' => a ≠ c ∧ char_free c s'
  end.

(** Integers in decimal, separated by a comma and a space, as Python
    prints the items of a list. *)
Definition ints_text (zs : list Z) : string :=
  String.concat ", " (pretty <$> zs).

(** A run of decimal digits, and the number it writes after [acc]. *)
Fixpoint all_digits (s : string) : Prop :=
  match s with
  | EmptyString => True
  | String a s' => digit_of a ≠ None ∧ all_digits s'
  end.

Fixpoint read_digits (s : string) (acc : Z) : Z :=
  match s with
  | EmptyString => acc
  | String a s' => read_digits s' (10 * acc + default 0 (digit_of a))
  end.

(** The digits of a number as Python and JSON write it: at least one
    digit, and no zero in front of another digit. *)
Definition canonical (s : string) : Prop :=
  match s with
  | EmptyString => False
  | String a s' => a = "0"%char -> s' = EmptyString
  end.

(** A string without white space. *)
Fixpoint no_space (s : string) : Prop :=
  match s with
  | EmptyString => True
  | String a s' => isspace a = false ∧ no_space s'
  end.

(** What follows an integer inside an array, and how an integer starts. *)
Definition ends_number (rest : string) : Prop :=
  match rest with
  | EmptyString => True
  | String a _ => a = ","%char ∨ a = "]"%char
  end.

Definition starts_number (s : string) : Prop :=
  match s with
  | String a s' =>
      digit_of a ≠ None ∨
      (a = "-"%char ∧ match s' with String b _ => digit_of b ≠ None | EmptyString => False end)
  | EmptyString => False
  end.

(** * The analysis of the pages, document_processor.py

    What PyMuPDF returns for a page is data here: the text of the page,
    its text and image blocks, its size, the number of tables found and
    the number of images.  The search of the measurement pattern is left
    to the regular expression engine. *)

(** A block of [page.get_text("dict")]: its type, 0 for text; its
    bounding box, of which the analysis reads the top and the bottom; for
    each of its lines, the texts of the spans. *)
Record block : Type := {
  block_type : Z;
  bbox_top : float;
  bbox_bottom : float;
  lines : list (list string)
}.

Record pdf_page : Type := {
  get_text : string;
  get_blocks : list block;
  rect_width : float;
  rect_height : float;
  table_count : nat;
  get_images : nat
}.

(** The dictionary built for a page at lines 70-82, and the result of the
    analysis. *)
Record page_data : Type := {
  page_number : Z;
  width : float;
  height : float;
  text_content : string;
  header_text : string;
  footer_text : string;
  has_tables : bool;
  image_count : nat;
  likely_technical_sheet : bool
}.

Record document_analysis : Type := {
  total_pages : nat;
  pages : list page_data
}.

(** The texts of the spans of a block, line after line. *)
Definition span_texts (b : block) : list string := List.concat (lines b).

(** Lines 13-25.  The height of the page is not read. *)
Definition extract_header_text (blocks : list block) (page_height : float)
    (header_zone_height : float) : string :=
  String.concat " "
    (List.concat
       (map (fun b =>
               if (block_type b =? 0) && PrimFloat.ltb (bbox_top b) header_zone_height
               then span_texts b else [])
          blocks)).

(** Lines 28-40. *)
Definition extract_footer_text (blocks : list block) (page_height : float)
    (footer_zone_height : float) : string :=
  String.concat " "
    (List.concat
       (map (fun b =>
               if (block_type b =? 0) &&
                  PrimFloat.ltb (page_height - footer_zone_height)%float (bbox_bottom b)
               then span_texts b else [])
          blocks)).

(** Lines 95-105. *)
Definition technical_indicators : list string :=
  ["technical data"; "specifications"; "tech spec"; "technical sheet";
   "dimensions"; "material properties"; "electrical specifications";
   "installation requirements"; "performance characteristics"].

Section Analysis.

(** [bool(re.search(measurement_pattern, text, re.IGNORECASE))] *)
Variable has_measurement : string -> bool.

(** Lines 90-118; [tables] is the length of the list of tables, or [None]
    when the argument is left out. *)
Definition is_likely_technical_sheet (page : pdf_page) (text_blocks : list block)
    (tables : option nat) : bool :=
  let text := lowercase (get_text page) in
  let has_tables :=
    match tables with
    | Some n => (0 <? n)%nat
    | None => false
    end in
  let has_measurements := has_measurement text in
  let keyword_matches :=
    length (filter (fun indicator => contains indicator text = true)
              technical_indicators) in
  (2 <=? keyword_matches)%nat || (has_tables && has_measurements).

(** Lines 55-84: the entry of the page numbered [page_num] from 0. *)
Definition analyze_page (page_num : nat) (page : pdf_page) : page_data :=
  let text_blocks := get_blocks page in
  {| page_number := Z.of_nat page_num + 1;
     width := rect_width page;
     height := rect_height page;
     text_content := get_text page;
     header_text := extract_header_text text_blocks (rect_height page) 100;
     footer_text := extract_footer_text text_blocks (rect_height page) 100;
     has_tables := (0 <? table_count page)%nat;
     image_count := get_images page;
     likely_technical_sheet :=
       is_likely_technical_sheet page text_blocks (Some (table_count page)) |}.

(** Lines 43-86, on the document opened. *)
Definition analyze_pdf_structure (doc : list pdf_page) : document_analysis :=
  {| total_pages := length doc; pages := imap analyze_page doc |}.

(** Lines 174-178 of [main]. *)
Definition tech_sheet_pages (analysis : document_analysis) : list Z :=
  page_number <$> filter (fun page => likely_technical_sheet page = true) (pages analysis).

End Analysis.

(** A page of which only the text and the number of tables matter. *)
Definition text_page (text : string) (tables : nat) : pdf_page :=
  {| get_text := text; get_blocks := []; rect_width := 595; rect_height := 842;
     table_count := tables; get_images := 0 |}.

(** * The configuration, utils/config.py

    The environment is the one [load_dotenv] leaves; the state is the set
    of the directories that exist. *)

Module Config.

Record t : Type := {
  API_HOST : string;
  API_PORT : Z;
  API_DEBUG : bool;
  MISTRAL_API_KEY : string;
  MISTRAL_MODEL_NAME : string;
  MISTRAL_OCR : string;
  CATALOG_DIR : string;
  OUTPUT_DIR : string;
  OUTPUT_STREAMLIT_DIR : string
}.

(** [os.getenv(key, default)] *)
Definition getenv (env : gmap string string) (key default : string) : string :=
  match env !! key with
  | Some v => v
  | None => default
  end.

(** Lines 6-20: the body of the class, run when the module is imported. *)
Definition class_body (env : gmap string string) : result t :=
  port ← int_of_str (getenv env "API_PORT" "8000");
  Ok {| API_HOST := getenv env "API_HOST" "localhost";
        API_PORT := port;
        API_DEBUG := String.eqb (lowercase (getenv env "API_DEBUG" "False")) "true";
        MISTRAL_API_KEY := getenv env "MISTRAL_API_KEY" EmptyString;
        MISTRAL_MODEL_NAME := getenv env "MISTRAL_MODEL_NAME" "mistral-small-latest";
        MISTRAL_OCR := getenv env "MISTRAL_OCR" "mistral-ocr-latest";
        CATALOG_DIR := getenv env "CATALOG_DIR" "../data/catalogs";
        OUTPUT_DIR := getenv env "OUTPUT_DIR" "../data/output";
        OUTPUT_STREAMLIT_DIR :=
          getenv env "OUTPUT_STREAMLIT_DIR" "../data/output_streamlit" |}.

Section Validate.

(** Whether [os.makedirs(d, exist_ok=True)] succeeds. *)
Variable can_make : string -> bool.

Definition makedirs (d : string) : io (gset string) unit := fun dirs =>
  if can_make d then Done tt ({[ d ]} ∪ dirs) else Failed OSError dirs.

(** Lines 22-34. *)
Definition validate (self : t) : io (gset string) unit :=
  if String.eqb (MISTRAL_API_KEY self) EmptyString then lift (Raise ValueError)
  else
    _ ← makedirs (CATALOG_DIR self);
    _ ← makedirs (OUTPUT_DIR self);
    if (API_PORT self <? 1) || (65535 <? API_PORT self) then lift (Raise ValueError)
    else mret tt.

(** The import of the module: the class body, then lines 37-38. *)
Definition import_module (env : gmap string string) : io (gset string) t :=
  config ← lift (class_body env);
  _ ← validate config;
  mret config.

End Validate.

End Config.

(** * Properties of the numbers *)

(** The conversion of decimal numbers agrees with the literals of the
    prover on numbers that are not binary fractions, on a tie, at the two
    ends of the range and among the subnormal numbers. *)
Example float_of_str_examples :
  float_of_str "0.1" = Ok 0.1%float ∧
  float_of_str "0.59" = Ok 0.59%float ∧
  float_of_str " 0.6 " = Ok 0.6%float ∧
  float_of_str "0.7" = Ok 0.7%float ∧
  float_of_str "-2.5e-3" = Ok (-0.0025)%float ∧
  float_of_str "1e23" = Ok 1e23%float ∧
  float_of_str "9007199254740993" = Ok 9007199254740992%float ∧
  float_of_str "1.7976931348623157e308" = Ok 1.7976931348623157e308%float ∧
  float_of_str "1.8e308" = Ok infinity ∧
  float_of_str "2.2250738585072011e-308" = Ok 2.2250738585072011e-308%float ∧
  float_of_str "4.9e-324" = Ok 4.9e-324%float ∧
  float_of_str "2e-324" = Ok 0%float ∧
  float_of_str "-Infinity" = Ok neg_infinity ∧
  float_of_str "1_0.5" = Ok 10.5%float ∧
  float_of_str "1e" = Raise ValueError ∧
  float_of_str "high" = Raise ValueError.
Proof. vm_compute. repeat split. Qed.

Example float_of_int_examples :
  float_of_int 1 = Ok 1%float ∧
  float_of_int (2 ^ 53 + 1) = Ok 9007199254740992%float ∧
  float_of_int (10 ^ 308) = Ok 1e308%float ∧
  float_of_int (10 ^ 309) = Raise OverflowError ∧
  float_of_int (- 10 ^ 309) = Raise OverflowError.
Proof. vm_compute. repeat split. Qed.

Example int_examples :
  int_of_str " 12 " = Ok 12 ∧
  int_of_str "-1_000" = Ok (-1000) ∧
  int_of_str "1-3" = Raise ValueError ∧
  int_of_str "1.0" = Raise ValueError ∧
  int_of_str "" = Raise ValueError ∧
  int_of_float 9.9 = Ok 9 ∧
  int_of_float (-9.9) = Ok (-9) ∧
  int_of_float nan = Raise ValueError ∧
  int_of_float infinity = Raise OverflowError.
Proof. vm_compute. repeat split. Qed.

(** * Properties of the comparison of floats *)

Lemma SFcompare_antisym (x y : spec_float) :
  SFcompare y x = CompOpp <$> SFcompare x y.
Proof.
  destruct x as [sx|sx| |sx mx ex], y as [sy|sy| |sy my ey]; simpl;
    try done; try (by destruct sx); try (by destruct sy);
    try (by destruct sx, sy).
  destruct sx, sy; simpl; try done.
  - rewrite (Z.compare_antisym ex ey). destruct (ex ?= ey)%Z; simpl; try done.
    by rewrite (Pos.compare_cont_antisym mx my Eq).
  - rewrite (Z.compare_antisym ex ey). destruct (ex ?= ey)%Z; simpl; try done.
    by rewrite (Pos.compare_cont_antisym mx my Eq).
Qed.

(** [c >= t] is false when [c < t], and true when [c == t]. *)
Lemma float_lt_not_ge (c t : float) :
  PrimFloat.ltb c t = true -> float_ge c t = false.
Proof.
  unfold float_ge. intros H. rewrite FloatAxioms.ltb_spec in H. rewrite FloatAxioms.leb_spec.
  unfold SFltb, SFleb in *.
  rewrite (SFcompare_antisym (Prim2SF c) (Prim2SF t)).
  by destruct (SFcompare (Prim2SF c) (Prim2SF t)) as [[]|].
Qed.

Lemma float_eq_ge (c t : float) :
  PrimFloat.eqb c t = true -> float_ge c t = true.
Proof.
  unfold float_ge. intros H. rewrite FloatAxioms.eqb_spec in H. rewrite FloatAxioms.leb_spec.
  unfold SFeqb, SFleb in *.
  rewrite (SFcompare_antisym (Prim2SF c) (Prim2SF t)).
  by destruct (SFcompare (Prim2SF c) (Prim2SF t)) as [[]|].
Qed.

(** * Properties of the decoder *)

Module JsonFacts.
Import Json.

Lemma skip_ws_length (s : string) : (String.length (skip_ws s) <= String.length s)%nat.
Proof.
  induction s as [|a s IH]; simpl; [lia|].
  destruct (is_ws a); simpl; lia.
Qed.

Lemma strip_prefix_length (p s r : string) :
  strip_prefix p s = Some r ->
  String.length s = (String.length p + String.length r)%nat.
Proof.
  revert s; induction p as [|a p IH]; intros s; simpl.
  - by intros [= ->].
  - destruct s as [|b s]; [discriminate|].
    destruct (Ascii.eqb a b); [|discriminate]. intros H. simpl. by rewrite (IH _ H).
Qed.

Lemma scan_constant_shorter (s : string) (v : value) (rest : string) :
  scan_constant s = Some (v, rest) -> (String.length rest < String.length s)%nat.
Proof.
  unfold scan_constant.
  repeat match goal with
         | |- context [strip_prefix ?p s] =>
             let H := fresh in
             destruct (strip_prefix p s) eqn:H;
             [apply strip_prefix_length in H; simpl in H; intros [= <- <-]; lia|]
         end.
  discriminate.
Qed.

Lemma scan_plain_digits_length (s : string) (acc : Z) (n : nat) :
  (String.length (scan_plain_digits s acc n).2 <= String.length s)%nat.
Proof.
  revert acc n; induction s as [|a s IH]; intros acc n; simpl; [lia|].
  destruct (digit_of a); simpl; [|lia]. specialize (IH (10 * acc + z) (S n)). lia.
Qed.

Lemma scan_integer_shorter (s : string) (m : Z) (rest : string) :
  scan_integer s = Some (m, rest) -> (String.length rest < String.length s)%nat.
Proof.
  destruct s as [|a s]; simpl; [discriminate|].
  destruct (digit_of a) as [d|]; [|discriminate].
  pose proof (scan_plain_digits_length s d 1) as Hl.
  destruct (scan_plain_digits s d 1) as [[m' k] r]. simpl in Hl.
  destruct d; intros [= <- <-]; lia.
Qed.

Lemma scan_fraction_length (s : string) (m : Z) :
  (String.length (scan_fraction s m).2 <= String.length s)%nat.
Proof.
  destruct s as [|a s]; simpl; [lia|].
  destruct (code a =? 46); simpl; [|lia].
  pose proof (scan_plain_digits_length s m 0) as Hl.
  destruct (scan_plain_digits s m 0) as [[m' [|k]] r]; simpl in *; lia.
Qed.

Lemma scan_sign_length (s : string) :
  (String.length (scan_sign s).2 <= String.length s)%nat.
Proof.
  destruct s as [|a s]; simpl; [lia|].
  destruct a as [[] [] [] [] [] [] [] []]; simpl; lia.
Qed.

Lemma scan_exp_length (s : string) (x : Z) (rest : string) :
  scan_exp s = Some (x, rest) -> (String.length rest <= String.length s)%nat.
Proof.
  destruct s as [|a s]; simpl; [discriminate|].
  destruct (_ || _); [|discriminate].
  pose proof (scan_sign_length s) as Hs.
  destruct (scan_sign s) as [neg s2]. simpl in Hs.
  pose proof (scan_plain_digits_length s2 0 0) as Hl.
  destruct (scan_plain_digits s2 0 0) as [[x' [|k]] r]; [discriminate|].
  simpl in Hl. intros [= <- <-]. lia.
Qed.

Lemma scan_number_shorter (s : string) (v : value) (rest : string) :
  scan_number s = Some (v, rest) -> (String.length rest < String.length s)%nat.
Proof.
  unfold scan_number.
  set (p := match s with
            | String a s' => if code a =? 45 then (true, s') else (false, s)
            | EmptyString => (false, s)
            end).
  assert (Hp : (String.length p.2 <= String.length s)%nat).
  { unfold p. destruct s as [|a s']; simpl; [lia|]. destruct (code a =? 45); simpl; lia. }
  destruct p as [neg s1]. simpl in Hp.
  destruct (scan_integer s1) as [[m s2]|] eqn:Hi; simpl; [|discriminate].
  apply scan_integer_shorter in Hi.
  pose proof (scan_fraction_length s2 m) as Hf.
  destruct (scan_fraction s2 m) as [[m' nfrac] s3]. simpl in Hf.
  destruct (scan_exp s3) as [[x s4]|] eqn:He.
  - apply scan_exp_length in He. destruct nfrac; intros [= <- <-]; lia.
  - destruct nfrac; intros [= <- <-]; lia.
Qed.

Lemma scanstring_shorter_upto (n : nat) :
  ∀ s r rest, (String.length s <= n)%nat ->
    scanstring s = Some (r, rest) -> (String.length rest < String.length s)%nat.
Proof.
  induction n as [|n IH]; intros s r rest Hn.
  { destruct s; [discriminate | simpl in Hn; lia]. }
  assert (Hrec : ∀ t (f : string -> string),
            (String.length t <= n)%nat ->
            ('(r', rest') ← scanstring t; Some (f r', rest')) = Some (r, rest) ->
            (String.length rest < String.length t)%nat).
  { intros t f Ht. destruct (scanstring t) as [[r' rest']|] eqn:H; simpl; [|discriminate].
    intros [= <- <-]. by eapply IH. }
  destruct s as [|a s]; [discriminate|].
  change (scanstring (String a s)) with
    (if code a =? 34 then Some (EmptyString, s)
     else if code a =? 92 then
       match s with
       | String e s'' =>
           if code e =? 117 then
             match s'' with
             | String h1 (String h2 (String h3 (String h4 s3))) =>
                 cp ← hex4 h1 h2 h3 h4;
                 match s3 with
                 | String b1 (String b2 (String g1 (String g2 (String g3 (String g4 s4))))) =>
                     if is_high_surrogate cp && (code b1 =? 92) && (code b2 =? 117) then
                       cp2 ← hex4 g1 g2 g3 g4;
                       if is_low_surrogate cp2 then
                         '(r, rest) ← scanstring s4;
                         Some (utf8 (65536 + (cp - 55296) * 1024 + (cp2 - 56320)) +:+ r, rest)
                       else
                         '(r, rest) ← scanstring s3;
                         Some (utf8 cp +:+ r, rest)
                     else
                       '(r, rest) ← scanstring s3;
                       Some (utf8 cp +:+ r, rest)
                 | _ =>
                     '(r, rest) ← scanstring s3;
                     Some (utf8 cp +:+ r, rest)
                 end
             | _ => None
             end
           else
             c ← simple_escape e;
             '(r, rest) ← scanstring s'';
             Some (String c r, rest)
       | EmptyString => None
       end
     else if code a <? 32 then None
     else
       '(r, rest) ← scanstring s;
       Some (String a r, rest)).
  simpl in Hn.
  destruct (code a =? 34); [intros [= <- <-]; simpl; lia|].
  destruct (code a =? 92).
  - destruct s as [|e s2]; [discriminate|]. simpl in Hn.
    destruct (code e =? 117).
    + destruct s2 as [|h1 [|h2 [|h3 [|h4 s3]]]]; try discriminate. simpl in Hn.
      destruct (hex4 h1 h2 h3 h4) as [cp|]; simpl; [|discriminate].
      assert (Hs3 : ('(r', rest') ← scanstring s3; Some (utf8 cp +:+ r', rest')) = Some (r, rest) ->
                    (String.length rest < String.length (String a (String e (String h1 (String h2 (String h3 (String h4 s3)))))))%nat).
      { intros H. apply Hrec in H; [simpl; lia | lia]. }
      destruct s3 as [|b1 [|b2 [|g1 [|g2 [|g3 [|g4 s4]]]]]]; try exact Hs3.
      destruct (is_high_surrogate cp && (code b1 =? 92) && (code b2 =? 117)); [|exact Hs3].
      destruct (hex4 g1 g2 g3 g4) as [cp2|]; simpl; [|discriminate].
      destruct (is_low_surrogate cp2); [|exact Hs3].
      intros H. apply Hrec in H; simpl in *; lia.
    + destruct (simple_escape e); simpl; [|discriminate].
      intros H. apply Hrec in H; simpl in *; lia.
  - destruct (code a <? 32); [discriminate|].
    intros H. apply Hrec in H; simpl in *; lia.
Qed.

Lemma scanstring_shorter (s r rest : string) :
  scanstring s = Some (r, rest) -> (String.length rest < String.length s)%nat.
Proof. by apply (scanstring_shorter_upto (String.length s)). Qed.

Lemma scan_scalar_shorter (s : string) (v : value) (rest : string) :
  scan_scalar s = Some (v, rest) -> (String.length rest < String.length s)%nat.
Proof.
  destruct s as [|a s]; simpl; [discriminate|].
  destruct (code a =? 34).
  - destruct (scanstring s) as [[str r]|] eqn:H; simpl; [|discriminate].
    apply scanstring_shorter in H. intros [= <- <-]. lia.
  - destruct (scan_constant (String a s)) as [[v' r]|] eqn:Hc.
    + apply scan_constant_shorter in Hc. intros [= <- <-]. simpl in Hc. lia.
    + intros H. apply scan_number_shorter in H. simpl in H. lia.
Qed.

(** What [fuel] has to cover: a value, a run of items or a run of pairs that
    takes [k] characters is read with any fuel from [2 * k] on. *)
Definition enough {A : Type} (scan : nat -> string -> option (A * string))
    (fuel : nat) : Prop :=
  ∀ s v rest, scan fuel s = Some (v, rest) ->
    (String.length rest < String.length s)%nat ∧
    ∀ fuel', (2 * (String.length s - String.length rest) <= fuel')%nat ->
      scan fuel' s = Some (v, rest).

Lemma scan_enough (fuel : nat) :
  enough scan_once fuel ∧
  (∀ acc, enough (fun f s => scan_items f s acc) fuel) ∧
  (∀ acc, enough (fun f s => scan_pairs f s acc) fuel).
Proof.
  induction fuel as [|fuel (IHonce & IHitems & IHpairs)].
  { repeat split; intros; discriminate. }
  split; [|split].
  - intros s v rest. simpl. destruct s as [|a s']; [discriminate|].
    destruct (code a =? 91) eqn:E1; [|destruct (code a =? 123) eqn:E2].
    + pose proof (skip_ws_length s') as Hws.
      destruct (skip_ws s') as [|b rest0] eqn:Ew; [discriminate|].
      destruct (code b =? 93) eqn:E3.
      * intros [= <- <-]. simpl in *. split; [lia|].
        intros [|f'] Hf; [lia|]. simpl. by rewrite E1, Ew, E3.
      * intros H. apply IHitems in H as [Hlen Hfuel]. simpl in *. split; [lia|].
        intros [|f'] Hf; [lia|]. simpl. rewrite E1, Ew, E3.
        apply Hfuel. simpl. lia.
    + pose proof (skip_ws_length s') as Hws.
      destruct (skip_ws s') as [|b rest0] eqn:Ew; [discriminate|].
      destruct (code b =? 125) eqn:E3.
      * intros [= <- <-]. simpl in *. split; [lia|].
        intros [|f'] Hf; [lia|]. simpl. by rewrite E1, E2, Ew, E3.
      * intros H. apply IHpairs in H as [Hlen Hfuel]. simpl in *. split; [lia|].
        intros [|f'] Hf; [lia|]. simpl. rewrite E1, E2, Ew, E3.
        apply Hfuel. simpl. lia.
    + intros H. pose proof (scan_scalar_shorter _ _ _ H) as Hlen. split; [done|].
      intros [|f'] Hf; [simpl in *; lia|]. simpl. by rewrite E1, E2.
  - intros acc s v rest. simpl.
    destruct (scan_once fuel s) as [[v1 s1]|] eqn:H1; simpl; [|discriminate].
    apply IHonce in H1 as [Hlen1 Hfuel1].
    pose proof (skip_ws_length s1) as Hws.
    destruct (skip_ws s1) as [|b rest0] eqn:Ew; [discriminate|].
    destruct (code b =? 93) eqn:E3; [|destruct (code b =? 44) eqn:E4; [|discriminate]].
    + intros [= <- <-]. simpl in *. split; [lia|].
      intros [|f'] Hf; [lia|]. simpl. rewrite Hfuel1 by lia. simpl.
      by rewrite Ew, E3.
    + intros H. apply IHitems in H as [Hlen Hfuel].
      pose proof (skip_ws_length rest0) as Hws0. simpl in *. split; [lia|].
      intros [|f'] Hf; [lia|]. simpl. rewrite Hfuel1 by lia. simpl.
      rewrite Ew, E3, E4. apply Hfuel. lia.
  - intros acc s v rest. simpl.
    destruct s as [|q s0]; [discriminate|].
    destruct (code q =? 34) eqn:Eq; [|discriminate].
    destruct (scanstring s0) as [[key s1]|] eqn:Hk; simpl; [|discriminate].
    pose proof (scanstring_shorter _ _ _ Hk) as Hlenk.
    pose proof (skip_ws_length s1) as Hws1.
    destruct (skip_ws s1) as [|c s2] eqn:Ew1; [discriminate|].
    destruct (code c =? 58) eqn:Ec; [|discriminate].
    pose proof (skip_ws_length s2) as Hws2.
    destruct (scan_once fuel (skip_ws s2)) as [[v1 s3]|] eqn:H1; simpl; [|discriminate].
    apply IHonce in H1 as [Hlen1 Hfuel1].
    pose proof (skip_ws_length s3) as Hws3.
    destruct (skip_ws s3) as [|b rest0] eqn:Ew3; [discriminate|].
    destruct (code b =? 125) eqn:E3; [|destruct (code b =? 44) eqn:E4; [|discriminate]].
    + intros [= <- <-]. simpl in *. split; [lia|].
      intros [|f'] Hf; [lia|]. simpl. rewrite Eq, Hk. simpl. rewrite Ew1, Ec.
      rewrite Hfuel1 by lia. simpl. by rewrite Ew3, E3.
    + intros H. apply IHpairs in H as [Hlen Hfuel].
      pose proof (skip_ws_length rest0) as Hws0. simpl in *. split; [lia|].
      intros [|f'] Hf; [lia|]. simpl. rewrite Eq, Hk. simpl. rewrite Ew1, Ec.
      rewrite Hfuel1 by lia. simpl. rewrite Ew3, E3, E4. apply Hfuel. lia.
Qed.

(** The fuel of [loads] is enough: a text that is decoded with some fuel
    is decoded by [loads], with the same result. *)
Lemma scan_once_enough (fuel : nat) (s : string) (v : value) (rest : string) :
  scan_once fuel s = Some (v, rest) ->
  scan_once (2 * String.length s + 2) s = Some (v, rest).
Proof.
  intros H. destruct (scan_enough fuel) as [Honce _].
  apply Honce in H as [_ Hfuel]. apply Hfuel. lia.
Qed.

Lemma loads_enough (fuel : nat) (s : string) (v : value) (rest : string) :
  scan_once fuel (skip_ws s) = Some (v, rest) ->
  skip_ws rest = EmptyString ->
  loads s = Ok v.
Proof.
  intros H Hrest. destruct (scan_enough fuel) as [Honce _].
  apply Honce in H as [Hlen Hfuel]. unfold loads.
  rewrite Hfuel, Hrest; [done|].
  pose proof (skip_ws_length s). lia.
Qed.

(** A text that starts with a bracket decodes to a list, if it decodes. *)
Lemma scan_items_list (fuel : nat) :
  ∀ s acc v rest, scan_items fuel s acc = Some (v, rest) -> ∃ l, v = PList l.
Proof.
  induction fuel as [|fuel IH]; intros s acc v rest; simpl; [discriminate|].
  destruct (scan_once fuel s) as [[v1 s1]|]; simpl; [|discriminate].
  destruct (skip_ws s1) as [|b rest0]; [discriminate|].
  destruct (code b =? 93); [intros [= <- <-]; eauto|].
  destruct (code b =? 44); [apply IH | discriminate].
Qed.

Lemma loads_bracket (s : string) (v : value) :
  loads (String "[" s) = Ok v -> ∃ l, v = PList l.
Proof.
  unfold loads.
  change (skip_ws (String "[" s)) with (String "["%char s).
  destruct (2 * String.length (String "[" s) + 2)%nat as [|fuel]; [discriminate|].
  simpl scan_once. change (code "[" =? 91) with true. cbv iota.
  destruct (skip_ws s) as [|b rest0]; [discriminate|].
  destruct (code b =? 93).
  - destruct (skip_ws rest0); [intros [= <-]; eauto | discriminate].
  - destruct (scan_items fuel (String b rest0) []) as [[v' rest]|] eqn:H; [|discriminate].
    apply scan_items_list in H as [l ->].
    destruct (skip_ws rest); [intros [= <-]; eauto | discriminate].
Qed.

End JsonFacts.

Example loads_examples :
  Json.loads (dq "[1, -2, 3.5, 1e2, true, null, 'a', [], {'k': [0]}]")
    = Ok (PList [PInt 1; PInt (-2); PFloat 3.5; PFloat 100; PBool true; PNone;
                 PStr "a"; PList []; PDict [("k", PList [PInt 0])]]) ∧
  Json.loads (dq "{'a': 1, 'b': 2, 'a': 3}") = Ok (PDict [("a", PInt 3); ("b", PInt 2)]) ∧
  Json.loads " [ 1 , 2 ] " = Ok (PList [PInt 1; PInt 2]) ∧
  Json.loads "[1,]" = Raise JSONDecodeError ∧
  Json.loads "[01]" = Raise JSONDecodeError ∧
  Json.loads "[1] 2" = Raise JSONDecodeError ∧
  Json.loads "1-3" = Raise JSONDecodeError ∧
  Json.loads "1, 2" = Raise JSONDecodeError ∧
  Json.loads "5" = Ok (PInt 5).
Proof. vm_compute. repeat split. Qed.

Lemma find_from_split (c : ascii) (s : string) (i : Z) :
  0 ≤ i -> 0 ≤ find_from c s i ->
  ∃ s1 s2, s = s1 +:+ String c s2 ∧
           find_from c s i = i + Z.of_nat (String.length s1).
Proof.
  revert i; induction s as [|a s IH]; intros i Hi; simpl; [lia|].
  destruct (Ascii.eqb_spec a c) as [->|Hac].
  - intros _. exists EmptyString, s. split; [done | simpl; lia].
  - intros H. destruct (IH (i + 1)) as (s1 & s2 & -> & Hf); [lia | done|].
    exists (String a s1), s2. split; [done|]. rewrite Hf. simpl. lia.
Qed.

Lemma substring_skip (s1 s2 : string) (m : nat) :
  substring (String.length s1) m (s1 +:+ s2) = substring 0 m s2.
Proof. induction s1 as [|a s1 IH]; [done|]. simpl. apply IH. Qed.

(** The text handed to the decoder starts with the first bracket of the
    response, so what is decoded is a list. *)
Lemma json_str_bracket (response : string) :
  has_array response = true -> ∃ s, json_str response = String "[" s.
Proof.
  unfold has_array, json_str, slice, find. intros H.
  apply andb_true_iff in H as [H1 H2].
  apply Z.leb_le in H1. apply Z.ltb_lt in H2.
  destruct (find_from_split "[" response 0) as (s1 & s2 & Hs & Hf); [done..|].
  rewrite Hf in *. clear Hf. subst response.
  rewrite Z.add_0_l, Nat2Z.id, substring_skip.
  destruct (Z.to_nat _) as [|m] eqn:Hm; [lia|]. simpl. eauto.
Qed.

Lemma parse_decodes_list (response : string) (boundaries : value) :
  has_array response = true ->
  Json.loads (json_str response) = Ok boundaries ->
  ∃ items, boundaries = PList items.
Proof.
  intros H Hl. destruct (json_str_bracket _ H) as [s Hs].
  rewrite Hs in Hl. by apply JsonFacts.loads_bracket in Hl.
Qed.


(** * Properties of the boundary parser *)

Lemma bind_Ok {A B : Type} (m : result A) (f : A -> result B) (b : B) :
  m ≫= f = Ok b -> ∃ a, m = Ok a ∧ f a = Ok b.
Proof. destruct m as [a|e]; simpl; [eauto | discriminate]. Qed.

Lemma fmap_Ok {A B : Type} (f : A -> B) (m : result A) (b : B) :
  f <$> m = Ok b -> ∃ a, m = Ok a ∧ b = f a.
Proof. destruct m as [a|e]; simpl; [|discriminate]. intros [= <-]; eauto. Qed.

Lemma comprehension_Forall2 {A B : Type} (f : A -> result B) (l : list A) (ys : list B) :
  comprehension f l = Ok ys <-> Forall2 (fun x y => f x = Ok y) l ys.
Proof.
  revert ys; induction l as [|x l IH]; intros ys; simpl.
  - split; [intros [= <-]; constructor | by inversion 1].
  - split.
    + intros H. apply bind_Ok in H as (y & Hy & H).
      apply bind_Ok in H as (ys' & Hys & [= <-]).
      constructor; [done | by apply IH].
    + inversion 1 as [|? y ? ys' Hy Hys]; subst.
      rewrite Hy; simpl. apply IH in Hys. by rewrite Hys.
Qed.

Lemma comprehension_Raise {A B : Type} (f : A -> result B) (l : list A) (e : exn) :
  comprehension f l = Raise e -> Exists (fun x => f x = Raise e) l.
Proof.
  induction l as [|x l IH]; simpl; [discriminate|].
  destruct (f x) as [y|e'] eqn:Hx; simpl.
  - destruct (comprehension f l) as [ys|e'']; simpl; [discriminate|].
    intros [= ->]. right. by apply IH.
  - intros [= ->]. by left.
Qed.

Lemma coerce_page_int (p q : value) :
  coerce_page p = Ok q -> isinstance_int q = true.
Proof.
  unfold coerce_page. destruct (isinstance_int p) eqn:Hp.
  - by intros [= <-].
  - intros H. apply fmap_Ok in H as (z & _ & ->). done.
Qed.

Lemma process_pages_ints (d : list (string * value)) (ps : list value) :
  process_pages d = Ok ps -> Forall (fun p => isinstance_int p = true) ps.
Proof.
  unfold process_pages. destruct (dict_lookup "pages" d) as [bp|].
  - intros H. apply bind_Ok in H as (pages & _ & H).
    apply bind_Ok in H as (items & _ & H).
    apply comprehension_Forall2 in H.
    induction H as [|p q l k Hpq _ IH]; constructor; eauto using coerce_page_int.
  - intros [= <-]. constructor.
Qed.

(** What one turn of the loop does to [normalized]. *)
Lemma normalize_Ok (self : Pipeline) (acc out : list value) (b : value) :
  normalize self acc b = Ok out ->
  (accepted self b = false ∧ out = acc) ∨
  (accepted self b = true ∧ ∃ x, produced self b x ∧ out = acc ++ [x]).
Proof.
  destruct b as [| | | | | |d]; simpl; try (intros [= <-]; by left).
  intros H. apply bind_Ok in H as (c & Hc & H). rewrite Hc.
  destruct (float_ge c (confidence_threshold self)) eqn:Hge.
  - apply bind_Ok in H as (ps & Hps & [= <-]). right. split; [done|].
    eexists. split; [|done]. by exists d, c, ps.
  - injection H as <-. by left.
Qed.

(** The loop appends one boundary for each accepted element, in the order
    of the elements. *)
Lemma for_each_normalize (self : Pipeline) (items : list value) :
  ∀ acc out, for_each (normalize self) items acc = Ok out ->
  ∃ news, out = acc ++ news ∧
    Forall2 (produced self) (filter (fun b => accepted self b = true) items) news.
Proof.
  induction items as [|b items IH]; intros acc out; simpl.
  - intros [= <-]. exists []. split; [by rewrite app_nil_r | constructor].
  - intros H. apply bind_Ok in H as (st & Hst & H).
    apply IH in H as (news & -> & Hnews).
    apply normalize_Ok in Hst as [[Hacc ->]|(Hacc & x & Hx & ->)].
    + exists news. split; [done|].
      rewrite filter_cons_False; [done | by rewrite Hacc].
    + exists (x :: news). split; [by rewrite <- app_assoc|].
      rewrite filter_cons_True by done. by constructor.
Qed.

(** The parser's result, when the body of the [try] block raises nothing. *)
Lemma parse_body_Ok (self : Pipeline) (response : string) (out : list value) :
  parse_body self response = Ok out ->
  (has_array response = false ∧ out = []) ∨
  (has_array response = true ∧ ∃ items,
     Json.loads (json_str response) = Ok (PList items) ∧
     Forall2 (produced self) (filter (fun b => accepted self b = true) items) out).
Proof.
  unfold parse_body. destruct (has_array response) eqn:Harr.
  - intros H. right. split; [done|].
    apply bind_Ok in H as (boundaries & Hb & H).
    destruct (parse_decodes_list _ _ Harr Hb) as [items ->].
    apply bind_Ok in H as (items' & [= <-] & H).
    apply for_each_normalize in H as (news & -> & H). eauto.
  - intros [= <-]. by left.
Qed.

Lemma ints_have_values (ps : list value) :
  Forall (fun p => isinstance_int p = true) ps ->
  ∃ zs, Forall2 (fun p z => int_value p = Some z) ps zs.
Proof.
  induction 1 as [|p ps Hp _ [zs IH]]; [by exists []|].
  destruct p; try discriminate; eexists (_ :: zs); by constructor.
Qed.

(** Every boundary that the parser returns is a dictionary whose pages are
    a list of int instances, which is what the materializer reads. *)
Lemma parsed_sheet_pages (self : Pipeline) (response : string) (x : value) :
  x ∈ _parse_boundaries self response ->
  ∃ d ps zs, x = PDict d ∧ dict_lookup "pages" d = Some (PList ps) ∧
             Forall2 (fun p z => int_value p = Some z) ps zs.
Proof.
  unfold _parse_boundaries.
  destruct (parse_body self response) as [out|e] eqn:Hbody; [|by inversion 1].
  intros Hx. apply parse_body_Ok in Hbody as [[_ ->]|(_ & items & _ & Hall)];
    [by inversion Hx|].
  apply list_elem_of_lookup in Hx as [i Hi].
  destruct (Forall2_lookup_r _ _ _ _ _ Hall Hi) as (b & _ & Hprod).
  destruct Hprod as (d & c & ps & _ & _ & _ & Hps & ->).
  destruct (ints_have_values ps) as [zs Hzs]; [by eapply process_pages_ints|].
  eexists _, ps, zs. split; [reflexivity|]. by split.
Qed.

Lemma loads_Raise (s : string) (e : exn) :
  Json.loads s = Raise e -> e = JSONDecodeError.
Proof.
  unfold Json.loads.
  destruct (Json.scan_once _ _) as [[v rest]|]; [|congruence].
  destruct (Json.skip_ws rest); congruence.
Qed.

Lemma int_of_str_Raise (s : string) (e : exn) :
  int_of_str s = Raise e -> e = ValueError.
Proof.
  unfold int_of_str. destruct (scan_sign (strip s)) as [neg s1].
  destruct (scan_digits s1 0 0) as [[z [|n]] [|a r]]; congruence.
Qed.

Lemma for_each_ext {S A : Type} (f g : S -> A -> result S) (l : list A) (st : S) :
  (∀ st x, f st x = g st x) -> for_each f l st = for_each g l st.
Proof.
  intros Hfg. revert st; induction l as [|x l IH]; intros st; simpl; [done|].
  rewrite Hfg. destruct (g st x); simpl; [apply IH | done].
Qed.

(** With an absent key the confidence is 0.7; so it is when [float()]
    raises one of the two exceptions that line 90 names. *)
Lemma get_confidence_absent (d : list (string * value)) :
  dict_lookup "confidence" d = None -> get_confidence d = Ok 0.7%float.
Proof. unfold get_confidence. by intros ->. Qed.

Lemma get_confidence_present (d : list (string * value)) (v : value) :
  dict_lookup "confidence" d = Some v ->
  (∀ f, py_float v = Ok f -> get_confidence d = Ok f) ∧
  (py_float v = Raise ValueError ∨ py_float v = Raise TypeError ->
   get_confidence d = Ok 0.7%float) ∧
  (py_float v = Raise OverflowError -> get_confidence d = Raise OverflowError).
Proof.
  unfold get_confidence. intros ->. repeat split.
  - by intros f ->.
  - by intros [-> | ->].
  - by intros ->.
Qed.

(** The test of line 94: an object below the threshold leaves
    [normalized] as it is, whatever its pages. *)
Lemma normalize_below_threshold (self : Pipeline) (acc : list value)
    (d : list (string * value)) (c : float) :
  get_confidence d = Ok c ->
  float_ge c (confidence_threshold self) = false ->
  normalize self acc (PDict d) = Ok acc.
Proof. intros Hc Hge. unfold normalize. rewrite Hc. simpl. by rewrite Hge. Qed.

Lemma normalize_at_threshold (self : Pipeline) (acc : list value)
    (d : list (string * value)) (c : float) (ps : list value) :
  get_confidence d = Ok c ->
  float_ge c (confidence_threshold self) = true ->
  process_pages d = Ok ps ->
  normalize self acc (PDict d) =
    Ok (acc ++ [boundary (dict_get "product" (PStr "Unnamed Product") d)
                  (PList ps) (PFloat c) (dict_get "reason" (PStr EmptyString) d)]).
Proof.
  intros Hc Hge Hps. unfold normalize. rewrite Hc. simpl.
  rewrite Hge, Hps. done.
Qed.

(** In the words of the specification: an object with a confidence strictly
    below the threshold is dropped, one with a confidence equal to the
    threshold is kept, provided its pages can be read. *)
Lemma normalize_strictly_below (self : Pipeline) (acc : list value)
    (d : list (string * value)) (c : float) :
  get_confidence d = Ok c ->
  PrimFloat.ltb c (confidence_threshold self) = true ->
  normalize self acc (PDict d) = Ok acc.
Proof. eauto using normalize_below_threshold, float_lt_not_ge. Qed.

Lemma normalize_equal (self : Pipeline) (acc : list value)
    (d : list (string * value)) (c : float) (ps : list value) :
  get_confidence d = Ok c ->
  PrimFloat.eqb c (confidence_threshold self) = true ->
  process_pages d = Ok ps ->
  normalize self acc (PDict d) =
    Ok (acc ++ [boundary (dict_get "product" (PStr "Unnamed Product") d)
                  (PList ps) (PFloat c) (dict_get "reason" (PStr EmptyString) d)]).
Proof. eauto using normalize_at_threshold, float_eq_ge. Qed.

(** The scenario of the specification: with threshold 0.6 the confidence
    0.59 is dropped and the confidence 0.6 is kept. *)
Example confidence_059_dropped_06_kept :
  _parse_boundaries (pipeline 0.6)
    (dq "[{'product': 'A', 'confidence': '0.59', 'pages': [1]},
          {'product': 'B', 'confidence': '0.6', 'pages': [2]}]")
  = [boundary (PStr "B") (PList [PInt 2]) (PFloat 0.6) (PStr EmptyString)].
Proof. vm_compute. reflexivity. Qed.

(** The first scenario of section 8 of the specification. *)
Example parse_T22 :
  _parse_boundaries (pipeline 0.5)
    (dq "Here you go: [{'product': 'T22', 'confidence': '0.9', 'pages': '[1,2]', 'reason': 'header match'}] Thanks!")
  = [boundary (PStr "T22") (PList [PInt 1; PInt 2]) (PFloat 0.9) (PStr "header match")].
Proof. vm_compute. reflexivity. Qed.

(** A response without brackets, or with brackets in the wrong order, or
    whose bracketed part is not JSON, gives the empty list. *)
Lemma parse_no_array (self : Pipeline) (response : string) :
  has_array response = false -> _parse_boundaries self response = [].
Proof. unfold _parse_boundaries, parse_body. by intros ->. Qed.

Lemma parse_invalid_json (self : Pipeline) (response : string) (e : exn) :
  Json.loads (json_str response) = Raise e -> _parse_boundaries self response = [].
Proof.
  unfold _parse_boundaries, parse_body. intros ->.
  by destruct (has_array response).
Qed.

Lemma parse_raise (self : Pipeline) (response : string) (e : exn) :
  parse_body self response = Raise e -> _parse_boundaries self response = [].
Proof. unfold _parse_boundaries. by intros ->. Qed.

(** An element that is not a dictionary is skipped on its own. *)
Lemma normalize_not_dict (self : Pipeline) (acc : list value) (b : value) :
  (∀ d, b ≠ PDict d) -> normalize self acc b = Ok acc.
Proof. destruct b; simpl; try done. intros H. by destruct (H d). Qed.

(** C10.  Every element of the list that the parser returns is a
    dictionary with the four keys product, pages, confidence and reason, in
    which the confidence is a float not below the threshold, pages is a list
    of int instances, product is the value decoded for that key or
    "Unnamed Product", and reason is the value decoded for that key or the
    empty string; it comes from a dictionary of the decoded array. *)
Theorem parse_boundaries_shape (self : Pipeline) (response : string) (x : value) :
  x ∈ _parse_boundaries self response ->
  ∃ d product pages confidence reason,
    x = PDict [("product", product); ("pages", PList pages);
               ("confidence", PFloat confidence); ("reason", reason)] ∧
    float_ge confidence (confidence_threshold self) = true ∧
    Forall (fun p => isinstance_int p = true) pages ∧
    (dict_lookup "product" d = Some product ∨
     dict_lookup "product" d = None ∧ product = PStr "Unnamed Product") ∧
    (dict_lookup "reason" d = Some reason ∨
     dict_lookup "reason" d = None ∧ reason = PStr EmptyString) ∧
    ∃ items,
      Json.loads (json_str response) = Ok (PList items) ∧ PDict d ∈ items.
Proof.
  unfold _parse_boundaries.
  destruct (parse_body self response) as [out|e] eqn:Hbody; [|by inversion 1].
  intros Hx. apply parse_body_Ok in Hbody as [[_ ->]|(_ & items & Hl & Hall)];
    [by inversion Hx|].
  apply list_elem_of_lookup in Hx as [i Hi'].
  destruct (Forall2_lookup_r _ _ _ _ _ Hall Hi') as (b & Hb & Hprod).
  destruct Hprod as (d & c & ps & -> & Hc & Hge & Hps & ->).
  exists d, (dict_get "product" (PStr "Unnamed Product") d), ps, c,
    (dict_get "reason" (PStr EmptyString) d).
  split; [done|]. split; [done|]. split; [by eapply process_pages_ints|].
  split; [unfold dict_get; destruct (dict_lookup "product" d); auto|].
  split; [unfold dict_get; destruct (dict_lookup "reason" d); auto|].
  exists items. split; [done|].
  apply list_elem_of_lookup_2 in Hb. by apply list_elem_of_filter in Hb as [_ ?].
Qed.

Lemma parse_boundaries_shape_witness :
  let response := dq "[{'product': 'T22', 'confidence': '0.9', 'pages': '[1,2]'}]" in
  let x := boundary (PStr "T22") (PList [PInt 1; PInt 2]) (PFloat 0.9) (PStr EmptyString) in
  x ∈ _parse_boundaries (pipeline 0.5) response ∧
  ∃ d product pages confidence reason,
    x = PDict [("product", product); ("pages", PList pages);
               ("confidence", PFloat confidence); ("reason", reason)] ∧
    float_ge confidence 0.5 = true ∧
    Forall (fun p => isinstance_int p = true) pages ∧
    (dict_lookup "product" d = Some product ∨
     dict_lookup "product" d = None ∧ product = PStr "Unnamed Product") ∧
    (dict_lookup "reason" d = Some reason ∨
     dict_lookup "reason" d = None ∧ reason = PStr EmptyString) ∧
    ∃ items,
      Json.loads (json_str response) = Ok (PList items) ∧ PDict d ∈ items.
Proof.
  intros response x.
  assert (Hx : x ∈ _parse_boundaries (pipeline 0.5) response).
  { vm_compute. left. }
  split; [exact Hx|].
  exact (parse_boundaries_shape (pipeline 0.5) response x Hx).
Defined.

Lemma normalize_threshold_only (self1 self2 : Pipeline) (acc : list value) (b : value) :
  confidence_threshold self1 = confidence_threshold self2 ->
  normalize self1 acc b = normalize self2 acc b.
Proof. intros H. unfold normalize. by rewrite H. Qed.

Lemma produced_functional (self : Pipeline) (b x y : value) :
  produced self b x -> produced self b y -> x = y.
Proof.
  intros (d & c & ps & -> & Hc & _ & Hps & ->) (d' & c' & ps' & [= <-] & Hc' & _ & Hps' & ->).
  congruence.
Qed.

(** C9.  The result of parsing depends on the response and on the
    confidence threshold only, so parsing the same response again with the
    same threshold gives the same list; and when the body of the parser
    raises nothing, the boundaries stand in the order in which their
    objects stand in the decoded array: the list is, position by position,
    what the loop produces for the accepted elements of the array. *)
Theorem parse_deterministic_in_order (self1 self2 : Pipeline) (response : string) :
  confidence_threshold self1 = confidence_threshold self2 ->
  _parse_boundaries self1 response = _parse_boundaries self2 response ∧
  ∀ items,
    has_array response = true ->
    Json.loads (json_str response) = Ok (PList items) ->
    (∃ e, parse_body self1 response = Raise e ∧ _parse_boundaries self1 response = []) ∨
    Forall2 (produced self1) (filter (fun b => accepted self1 b = true) items)
      (_parse_boundaries self1 response).
Proof.
  intros Hthr. split.
  - unfold _parse_boundaries, parse_body.
    destruct (has_array response); [|done].
    destruct (Json.loads (json_str response)) as [bs|]; simpl; [|done].
    destruct (py_iter bs) as [items|]; simpl; [|done].
    by rewrite (for_each_ext _ (normalize self2)) by
      (intros; by apply normalize_threshold_only).
  - intros items Harr Hl. unfold _parse_boundaries.
    destruct (parse_body self1 response) as [out|e] eqn:Hbody.
    + right. apply parse_body_Ok in Hbody as [[? _]|(_ & items' & Hl' & H)];
        [congruence|].
      rewrite Hl in Hl'. by injection Hl' as <-.
    + left. by exists e.
Qed.

Lemma parse_deterministic_in_order_witness :
  let response := dq "[{'product': 'Z', 'pages': [9]}, 7, {'product': 'A', 'pages': [2, 1]}]" in
  let self1 := pipeline 0.6 in
  let self2 := {| debug := false; confidence_threshold := 0.6; output_dir := "elsewhere" |} in
  _parse_boundaries self1 response = _parse_boundaries self2 response ∧
  ∀ items,
    has_array response = true ->
    Json.loads (json_str response) = Ok (PList items) ->
    (∃ e, parse_body self1 response = Raise e ∧ _parse_boundaries self1 response = []) ∨
    Forall2 (produced self1) (filter (fun b => accepted self1 b = true) items)
      (_parse_boundaries self1 response).
Proof.
  intros response self1 self2.
  apply (parse_deterministic_in_order self1 self2 response). reflexivity.
Defined.

(** The order of the array is kept even where the products or the pages
    are not in increasing order. *)
Example parse_keeps_array_order :
  _parse_boundaries (pipeline 0.6)
    (dq "[{'product': 'Z', 'pages': [9]}, 7, {'product': 'A', 'pages': [2, 1]}]")
  = [boundary (PStr "Z") (PList [PInt 9]) (PFloat 0.7) (PStr EmptyString);
     boundary (PStr "A") (PList [PInt 2; PInt 1]) (PFloat 0.7) (PStr EmptyString)].
Proof. vm_compute. reflexivity. Qed.

(** C3, as stated, fails: two identical objects in the response give two
    identical boundaries in the result. *)
Lemma parse_repeats_identical_boundaries :
  ¬ NoDup (_parse_boundaries (pipeline 0.6)
             (dq "[{'product': 'A', 'pages': [1]}, {'product': 'A', 'pages': [1]}]")).
Proof.
  intros H. vm_compute in H. apply NoDup_cons in H as [H _].
  apply H. left.
Qed.

(** C3, amended.  The parser builds no set and removes no duplicate: when
    the body of the parser raises nothing, the result holds exactly one
    boundary for each element of the decoded array that passes the
    confidence test, and two positions that hold the same accepted object
    hold the same boundary. *)
Theorem parse_one_boundary_per_accepted_object
    (self : Pipeline) (response : string) (items out : list value) :
  has_array response = true ->
  Json.loads (json_str response) = Ok (PList items) ->
  parse_body self response = Ok out ->
  let kept := filter (fun b => accepted self b = true) items in
  _parse_boundaries self response = out ∧
  length out = length kept ∧
  ∀ i j b, kept !! i = Some b -> kept !! j = Some b ->
    ∃ x, out !! i = Some x ∧ out !! j = Some x.
Proof.
  intros Harr Hl Hbody kept. split; [unfold _parse_boundaries; by rewrite Hbody|].
  apply parse_body_Ok in Hbody as [[? _]|(_ & items' & Hl' & H)];
    [congruence|].
  rewrite Hl in Hl'. injection Hl' as <-.
  fold kept in H. split; [symmetry; by eapply Forall2_length|].
  intros i j b Hki Hkj.
  destruct (Forall2_lookup_l _ _ _ _ _ H Hki) as (x & Hx & Hbx).
  destruct (Forall2_lookup_l _ _ _ _ _ H Hkj) as (y & Hy & Hby).
  exists x. split; [done|]. by rewrite (produced_functional _ _ _ _ Hbx Hby).
Qed.

Lemma parse_one_boundary_per_accepted_object_witness :
  let response := dq "[{'product': 'A', 'pages': [1]}, {'product': 'A', 'pages': [1]}]" in
  let a := PDict [("product", PStr "A"); ("pages", PList [PInt 1])] in
  let x := boundary (PStr "A") (PList [PInt 1]) (PFloat 0.7) (PStr EmptyString) in
  let kept := filter (fun b => accepted (pipeline 0.6) b = true) [a; a] in
  _parse_boundaries (pipeline 0.6) response = [x; x] ∧
  length [x; x] = length kept ∧
  ∀ i j b, kept !! i = Some b -> kept !! j = Some b ->
    ∃ y, [x; x] !! i = Some y ∧ [x; x] !! j = Some y.
Proof.
  intros response a x kept.
  apply (parse_one_boundary_per_accepted_object (pipeline 0.6) response [a; a] [x; x]);
    vm_compute; reflexivity.
Defined.

Lemma coerce_ints (zs : list Z) :
  comprehension coerce_page (PInt <$> zs) = Ok (PInt <$> zs).
Proof. induction zs as [|z zs IH]; csimpl; [done|]. by rewrite IH. Qed.

Lemma comma_separated_Ok (s : string) (zs : list Z) :
  Forall2 (fun tok z => int_of_str (strip tok) = Ok z) (split "," s) zs ->
  comma_separated s = Ok (PInt <$> zs).
Proof.
  unfold comma_separated. generalize (split "," s). intros toks H.
  induction H as [|tok z toks zs Htok _ IH]; csimpl; [done|].
  rewrite Htok; csimpl. by rewrite IH.
Qed.

Lemma comma_separated_Raise (s : string) :
  Exists (fun tok => ∃ e, int_of_str (strip tok) = Raise e) (split "," s) ->
  comma_separated s = Raise ValueError.
Proof.
  unfold comma_separated. generalize (split "," s). intros toks H.
  destruct (comprehension _ toks) as [l|e] eqn:Hc.
  - apply comprehension_Forall2 in Hc. exfalso.
    induction Hc as [|tok y toks l Htok _ IH]; inversion H as [? ? [e He]|]; subst.
    + rewrite He in Htok. discriminate.
    + by apply IH.
  - apply comprehension_Raise in Hc. f_equal.
    apply Exists_exists in Hc as (tok & _ & Htok).
    destruct (int_of_str (strip tok)) as [z|e'] eqn:Hi; simpl in Htok; [discriminate|].
    injection Htok as <-. by apply int_of_str_Raise in Hi.
Qed.



(** The paths through the page list, on examples. *)
Example pages_examples :
  process_pages [("pages", PList [PInt 7; PStr " 8 "; PFloat 9.9; PBool true])]
    = Ok [PInt 7; PInt 8; PInt 9; PBool true] ∧
  process_pages [("pages", PStr "[1, 2]")] = Ok [PInt 1; PInt 2] ∧
  process_pages [("pages", PStr "1, 2")] = Ok [PInt 1; PInt 2] ∧
  process_pages [("pages", PStr "1-2")] = Ok [] ∧
  process_pages [("pages", PInt 5)] = Ok [] ∧
  process_pages [("product", PStr "A")] = Ok [] ∧
  process_pages [("pages", PStr "5")] = Raise TypeError ∧
  process_pages [("pages", PList [PStr "x"])] = Raise ValueError ∧
  process_pages [("pages", PList [PNone])] = Raise TypeError.
Proof. vm_compute. repeat split. Qed.

(** C2, at an input on which the code departs from it.  The first object
    of the array gives its pages as a range, which [int()] rejects: the
    exception of line 117 reaches the handler of line 134 and the result is
    empty, the well-formed second object included.  With a number in the
    place of the first object, or with the same range given as a string
    and not as a list, that element alone is skipped or emptied and the
    second object is returned. *)
Theorem parse_bad_page_discards_all :
  parse_body (pipeline 0.6)
    (dq "[{'product': 'A', 'pages': ['1-3']}, {'product': 'B', 'pages': [4]}]")
    = Raise ValueError ∧
  _parse_boundaries (pipeline 0.6)
    (dq "[{'product': 'A', 'pages': ['1-3']}, {'product': 'B', 'pages': [4]}]")
    = [] ∧
  _parse_boundaries (pipeline 0.6)
    (dq "[5, {'product': 'B', 'pages': [4]}]")
    = [boundary (PStr "B") (PList [PInt 4]) (PFloat 0.7) (PStr EmptyString)] ∧
  _parse_boundaries (pipeline 0.6)
    (dq "[{'product': 'A', 'pages': '1-3'}, {'product': 'B', 'pages': [4]}]")
    = [boundary (PStr "A") (PList []) (PFloat 0.7) (PStr EmptyString);
       boundary (PStr "B") (PList [PInt 4]) (PFloat 0.7) (PStr EmptyString)].
Proof. vm_compute. repeat split. Qed.

(** C6, at an input on which the code departs from it.  The confidence is
    the integer 10^309, which [float()] rejects with [OverflowError]; line
    90 catches [ValueError] and [TypeError] only, so the confidence is not
    set to 0.7 and the handler of line 134 empties the result.  A
    confidence that [float()] rejects with [ValueError] is set to 0.7 and
    the boundary is kept. *)
Theorem parse_huge_confidence_discards_all :
  py_float (PInt (10 ^ 309)) = Raise OverflowError ∧
  get_confidence [("confidence", PInt (10 ^ 309))] = Raise OverflowError ∧
  _parse_boundaries (pipeline 0.6)
    (dq "[{'product': 'A', 'confidence': 1" +:+ zeros 309 +:+ dq ", 'pages': [1]}]")
    = [] ∧
  _parse_boundaries (pipeline 0.6)
    (dq "[{'product': 'A', 'confidence': 'high', 'pages': [1]}]")
    = [boundary (PStr "A") (PList [PInt 1]) (PFloat 0.7) (PStr EmptyString)].
Proof. vm_compute. repeat split. Qed.

(** * Properties of paths *)

Lemma length_app_string (a b : string) :
  String.length (a +:+ b) = (String.length a + String.length b)%nat.
Proof. induction a as [|c a IH]; simpl; [done | by rewrite IH]. Qed.

Lemma substring_all (b : string) : substring 0 (String.length b) b = b.
Proof. induction b as [|c b IH]; simpl; [done | by rewrite IH]. Qed.

Lemma substring_app_r (a b : string) :
  substring (String.length a) (String.length b) (a +:+ b) = b.
Proof. induction a as [|c a IH]; simpl; [apply substring_all | done]. Qed.

Lemma rfind_from_app (c : ascii) (a b : string) (i last : Z) :
  rfind_from c (a +:+ b) i last
  = rfind_from c b (i + Z.of_nat (String.length a)) (rfind_from c a i last).
Proof.
  revert i last; induction a as [|x a IH]; intros i last; simpl.
  - f_equal; lia.
  - rewrite IH. f_equal; lia.
Qed.

Lemma rfind_from_slash_free (b : string) (i last : Z) :
  slash_free b -> rfind_from "/" b i last = last.
Proof.
  revert i last; induction b as [|x b IH]; intros i last; simpl; [done|].
  intros [Hx Hb]. rewrite IH by done.
  destruct (Ascii.eqb_spec x "/"); congruence.
Qed.

Lemma slash_free_app (a b : string) :
  slash_free a -> slash_free b -> slash_free (a +:+ b).
Proof. induction a as [|x a IH]; simpl; [done|]. intros [? ?] ?. auto. Qed.

(** The base name of [a +:+ b] is [b] when [b] has no slash and [a] is
    empty or ends with one. *)
Lemma basename_app (a b : string) :
  rfind "/" a + 1 = Z.of_nat (String.length a) -> slash_free b ->
  basename (a +:+ b) = b.
Proof.
  intros Ha Hb. unfold basename, slice, rfind in *.
  rewrite rfind_from_app, rfind_from_slash_free by done.
  rewrite Ha, length_app_string, Nat2Z.id.
  replace (Z.to_nat _) with (String.length b) by lia.
  apply substring_app_r.
Qed.

Lemma rfind_dir (a : string) :
  a = EmptyString ∨ (∃ a', a = a' +:+ "/") ->
  rfind "/" a + 1 = Z.of_nat (String.length a).
Proof.
  intros [->|[a' ->]]; [done|]. unfold rfind.
  rewrite rfind_from_app, length_app_string. simpl. lia.
Qed.

(** Every path is a directory part, empty or ending with a slash, followed
    by a part without slash. *)
Lemma path_decompose (p : string) :
  ∃ a b, p = a +:+ b ∧ slash_free b ∧
         (a = EmptyString ∨ ∃ a', a = a' +:+ "/").
Proof.
  induction p as [|c p (a & b & -> & Hb & [->|[a' ->]])].
  - exists EmptyString, EmptyString. repeat split; auto.
  - destruct (Ascii.eqb_spec c "/") as [->|Hc].
    + exists "/"%string, b. repeat split; [done|]. right. by exists EmptyString.
    + exists EmptyString, (String c b). repeat split; auto. 
  - exists (String c a' +:+ "/"), b. repeat split; [done|]. right. by exists (String c a').
Qed.

Lemma basename_slash_free (p : string) : slash_free (basename p).
Proof.
  destruct (path_decompose p) as (a & b & -> & Hb & Ha).
  by rewrite basename_app by auto using rfind_dir.
Qed.

Lemma app_string_assoc (a b c : string) : (a +:+ b) +:+ c = a +:+ (b +:+ c).
Proof.
  induction a as [|x a IH]; [done|].
  change (String x ((a +:+ b) +:+ c) = String x (a +:+ (b +:+ c))).
  by rewrite IH.
Qed.

(** The base name of the stamped copy is that of the catalogue with a
    prefix, so the stamped copy is never written over the catalogue. *)
Lemma basename_enhanced (out p : string) :
  basename (path_join out ("enhanced_" +:+ basename p)) = "enhanced_" +:+ basename p.
Proof.
  assert (Hfree : slash_free ("enhanced_" +:+ basename p)).
  { apply slash_free_app; [|apply basename_slash_free]. simpl. repeat split; discriminate. }
  set (e := "enhanced_" +:+ basename p) in *.
  assert (He : path_join out e =
               match out with
               | EmptyString => e
               | _ => if ends_with_slash out then out +:+ e else out +:+ "/" +:+ e
               end) by done.
  rewrite He. destruct out as [|x out].
  - by apply (basename_app EmptyString).
  - destruct (ends_with_slash (String x out)) eqn:Hs.
    + apply basename_app; [|done]. unfold ends_with_slash in Hs. lia.
    + rewrite <- app_string_assoc. apply basename_app; [|done].
      apply rfind_dir. right. eauto.
Qed.

Lemma enhanced_path_fresh (out p : string) :
  path_join out ("enhanced_" +:+ basename p) ≠ p.
Proof.
  intros H. apply (f_equal basename) in H. rewrite basename_enhanced in H.
  apply (f_equal String.length) in H. rewrite length_app_string in H.
  simpl in H. lia.
Qed.

(** * Properties of the materializer *)

Lemma elem_of_in_range (n q : Z) (zs : list Z) :
  q ∈ in_range n zs <-> ∃ p, p ∈ zs ∧ 1 ≤ p ∧ p ≤ n ∧ q = p - 1.
Proof.
  unfold in_range. rewrite list_elem_of_fmap. split.
  - intros (p & -> & Hp). apply list_elem_of_filter in Hp as [[? ?] ?].
    exists p. repeat split; [done | lia | done].
  - intros (p & Hp & ? & ? & ->). exists p. split; [done|].
    apply list_elem_of_filter. split; [lia | done].
Qed.

Lemma in_range_bounds (n : Z) (zs : list Z) :
  Forall (fun q => 0 ≤ q ∧ q < n) (in_range n zs).
Proof.
  apply Forall_forall. intros q Hq.
  apply elem_of_in_range in Hq as (p & _ & ? & ? & ->). lia.
Qed.

Lemma in_range_all_out (n : Z) (zs : list Z) :
  Forall (fun p => p < 1 ∨ n < p) zs -> in_range n zs = [].
Proof.
  intros H. destruct (in_range n zs) as [|q l] eqn:Hr; [done|].
  assert (Hq : q ∈ in_range n zs) by (rewrite Hr; left).
  apply elem_of_in_range in Hq as (p & Hp & ? & ? & _).
  rewrite Forall_forall in H. specialize (H p Hp). lia.
Qed.

Lemma merge_sort_nil_inv (l : list Z) : merge_sort Z.le l = [] -> l = [].
Proof.
  intros H. apply Permutation_nil_r. rewrite <- H.
  symmetry. apply merge_sort_Permutation.
Qed.

Lemma select_pages_ints (n : Z) (ps : list value) (zs : list Z) :
  Forall2 (fun p z => int_value p = Some z) ps zs ->
  select_pages n (PList ps) = Ok (in_range n zs).
Proof.
  intros H. unfold select_pages. simpl.
  assert (Hc : comprehension
            (fun p => match int_value p with
                      | Some z => Ok z
                      | None => Raise TypeError
                      end) ps = Ok zs).
  { apply comprehension_Forall2.
    induction H as [|p z ps zs Hp _ IH]; constructor; [by rewrite Hp | done]. }
  by rewrite Hc.
Qed.

Lemma copy_pages_from {page : Type} (doc : list page) (l : list Z) (acc : list page) :
  Forall (fun q => 0 ≤ q ∧ q < Z.of_nat (length doc)) l ->
  ∃ new_doc,
    for_each (fun new_doc page_num =>
                match doc !! Z.to_nat page_num with
                | Some pg => Ok (new_doc ++ [pg])
                | None => Raise ValueError
                end) l acc = Ok (acc ++ new_doc) ∧
    Forall2 (fun q pg => doc !! Z.to_nat q = Some pg) l new_doc.
Proof.
  intros H. revert acc. induction H as [|q l Hq _ IH]; intros acc; simpl.
  - exists []. split; [by rewrite app_nil_r | constructor].
  - destruct (lookup_lt_is_Some_2 doc (Z.to_nat q)) as [pg Hpg]; [lia|].
    rewrite Hpg. simpl.
    destruct (IH (acc ++ [pg])) as (new_doc & -> & Hall).
    exists (pg :: new_doc). split; [by rewrite <- app_assoc | by constructor].
Qed.

(** Pages within range are copied one by one, in the order of the list. *)
Lemma copy_pages_Ok {page : Type} (doc : list page) (l : list Z) :
  Forall (fun q => 0 ≤ q ∧ q < Z.of_nat (length doc)) l ->
  ∃ new_doc, copy_pages doc l = Ok new_doc ∧
             Forall2 (fun q pg => doc !! Z.to_nat q = Some pg) l new_doc.
Proof. intros H. destruct (copy_pages_from doc l [] H) as (nd & Hnd & ?). eauto. Qed.

Lemma for_each_io_app {S St A : Type} (body : St -> A -> io S St)
    (l1 l2 : list A) (st : St) (s : S) :
  for_each_io body (l1 ++ l2) st s =
    match for_each_io body l1 st s with
    | Done st' s' => for_each_io body l2 st' s'
    | Failed e s' => Failed e s'
    end.
Proof.
  revert st s; induction l1 as [|x l1 IH]; intros st s; simpl; [done|].
  unfold mbind, io_bind. destruct (body st x s) as [st' s'|e s']; [apply IH | done].
Qed.

Lemma for_each_io_cons {S St A : Type} (body : St -> A -> io S St)
    (x : A) (l : list A) (st : St) (s : S) :
  for_each_io body (x :: l) st s =
    match body st x s with
    | Done st' s' => for_each_io body l st' s'
    | Failed e s' => Failed e s'
    end.
Proof. done. Qed.

Section MaterializerProperties.

Context {page analysis : Type}.
Variable insert_text : string -> page -> page.
Variable analyze : list page -> analysis.
Variable chat_complete : list page -> analysis -> string.
Variable OUTPUT_DIR : string.
Variable output_subdir : string -> string -> string.
Variable sheet_path : string -> value -> list Z -> value -> result string.
Variable writable : string -> bool.

Local Abbreviation files := (gmap string (list page)).

(** The loop body on a parsed boundary: nothing happens when no page is in
    range; otherwise the pages are copied and the file is saved. *)
Lemma materialize_sheet_eq (subdir : string) (doc : list page) (paths : list string)
    (i : nat) (d : list (string * value)) (ps : list value) (zs : list Z) (fs : files) :
  dict_lookup "pages" d = Some (PList ps) ->
  Forall2 (fun p z => int_value p = Some z) ps zs ->
  materialize_sheet sheet_path writable subdir doc paths (i, PDict d) fs =
    match merge_sort Z.le (in_range (Z.of_nat (length doc)) zs) with
    | [] => Done paths fs
    | q :: l =>
        match copy_pages doc (q :: l) with
        | Ok new_doc =>
            match sheet_path subdir
                    (dict_get "product" (PStr ("Product_" +:+ pretty (i + 1)%nat)) d)
                    (q :: l) (dict_get "confidence" (PFloat 0.5) d) with
            | Ok path =>
                if writable path then Done (paths ++ [path]) (<[path := new_doc]> fs)
                else Failed OSError fs
            | Raise e => Failed e fs
            end
        | Raise e => Failed e fs
        end
    end.
Proof.
  intros Hd Hps. unfold materialize_sheet, dict_get. rewrite Hd.
  destruct Hps as [|p z ps zs Hp Hps].
  - done.
  - rewrite (select_pages_ints _ (p :: ps) (z :: zs)) by (by constructor).
    simpl. unfold mbind, io_bind, lift, save. simpl.
    destruct (merge_sort Z.le _) as [|q l]; [done|].
    destruct (copy_pages doc (q :: l)); [|done].
    destruct (sheet_path _ _ _ _); [|done].
    by destruct (writable _).
Qed.

(** C8.  On a document of [length doc] pages, the pages that the loop
    keeps are exactly the pages of the boundary between 1 and the number of
    pages (each moved to its 0-indexed position): every other page value is
    dropped.  A boundary with no page in that range, in particular one
    whose pages are all out of range, is skipped: the run goes on without
    an exception, no file is written and no path is added. *)
Theorem materialize_sheet_skips_out_of_range
    (subdir : string) (doc : list page) (paths : list string)
    (i : nat) (d : list (string * value)) (ps : list value) (zs : list Z) (fs : files) :
  dict_lookup "pages" d = Some (PList ps) ->
  Forall2 (fun p z => int_value p = Some z) ps zs ->
  let n := Z.of_nat (length doc) in
  (∀ q, q ∈ merge_sort Z.le (in_range n zs) <->
        ∃ p, p ∈ zs ∧ 1 ≤ p ∧ p ≤ n ∧ q = p - 1) ∧
  (Forall (fun p => p < 1 ∨ n < p) zs ->
   materialize_sheet sheet_path writable subdir doc paths (i, PDict d) fs
   = Done paths fs).
Proof.
  intros Hd Hps n. split.
  - intros q. rewrite merge_sort_Permutation. apply elem_of_in_range.
  - intros Hout. rewrite (materialize_sheet_eq _ _ _ _ _ ps zs) by done.
    fold n. by rewrite (in_range_all_out _ _ Hout).
Qed.

(** C1, amended.  The pages of a boundary are filtered to the range from 1
    to the number of pages, moved to 0-indexed positions and sorted in
    ascending order; every occurrence of a page is kept.  When that list is
    not empty and the file can be written, the file holds the pages of the
    source at these positions, in this order, and nothing else.  On ten
    pages, the pages 3, 5, 4 give the positions 2, 3, 4. *)
Theorem materialize_sheet_copies_pages
    (subdir : string) (doc : list page) (paths : list string)
    (i : nat) (d : list (string * value)) (ps : list value) (zs : list Z)
    (path : string) (fs : files) :
  dict_lookup "pages" d = Some (PList ps) ->
  Forall2 (fun p z => int_value p = Some z) ps zs ->
  let page_list := merge_sort Z.le (in_range (Z.of_nat (length doc)) zs) in
  page_list ≠ [] ->
  sheet_path subdir (dict_get "product" (PStr ("Product_" +:+ pretty (i + 1)%nat)) d)
    page_list (dict_get "confidence" (PFloat 0.5) d) = Ok path ->
  writable path = true ->
  Sorted Z.le page_list ∧
  page_list ≡ₚ in_range (Z.of_nat (length doc)) zs ∧
  (∃ new_doc,
     materialize_sheet sheet_path writable subdir doc paths (i, PDict d) fs
     = Done (paths ++ [path]) (<[path := new_doc]> fs) ∧
     Forall2 (fun q pg => doc !! Z.to_nat q = Some pg) page_list new_doc) ∧
  merge_sort Z.le (in_range 10 [3; 5; 4]) = [2; 3; 4].
Proof.
  intros Hd Hps page_list Hne Hpath Hw.
  split; [apply (Sorted_merge_sort Z.le)|].
  split; [apply merge_sort_Permutation|].
  split; [|done].
  destruct (copy_pages_Ok doc page_list) as (new_doc & Hcopy & Hall).
  { unfold page_list. rewrite merge_sort_Permutation. apply in_range_bounds. }
  exists new_doc. split; [|done].
  rewrite (materialize_sheet_eq _ _ _ _ _ ps zs) by done.
  fold page_list. destruct page_list as [|q l] eqn:Hpl; [done|].
  by rewrite Hcopy, Hpath, Hw.
Qed.

(** C4, amended.  The loop has no handler: when the file of a sheet
    cannot be written, the exception leaves [materialize].  The files of
    the sheets before it stay written, the failing sheet and the sheets
    after it write nothing, and no list of paths is returned. *)
Theorem materialize_stops_at_failed_write
    (self : Pipeline) (pdf_path : string) (pre post : list value)
    (d : list (string * value)) (ps : list value) (zs : list Z) (path : string)
    (doc : list page) (fs fs1 : files) (paths1 : list string) :
  fs !! pdf_path = Some doc ->
  let subdir := output_subdir (output_dir self) pdf_path in
  for_each_io (materialize_sheet sheet_path writable subdir doc) (enumerate pre) [] fs
    = Done paths1 fs1 ->
  dict_lookup "pages" d = Some (PList ps) ->
  Forall2 (fun p z => int_value p = Some z) ps zs ->
  let page_list := merge_sort Z.le (in_range (Z.of_nat (length doc)) zs) in
  page_list ≠ [] ->
  sheet_path subdir
    (dict_get "product" (PStr ("Product_" +:+ pretty (length pre + 1)%nat)) d)
    page_list (dict_get "confidence" (PFloat 0.5) d) = Ok path ->
  writable path = false ->
  materialize output_subdir sheet_path writable self pdf_path (pre ++ PDict d :: post) fs
  = Failed OSError fs1.
Proof.
  intros Hdoc subdir Hpre Hd Hps page_list Hne Hpath Hw.
  assert (Hm : materialize output_subdir sheet_path writable self pdf_path
                 (pre ++ PDict d :: post) fs
               = for_each_io (materialize_sheet sheet_path writable subdir doc)
                   (enumerate (pre ++ PDict d :: post)) [] fs).
  { unfold materialize. destruct (pre ++ PDict d :: post) eqn:Hl.
    - by destruct pre.
    - unfold mbind, io_bind, fitz_open. by rewrite Hdoc. }
  rewrite Hm. unfold enumerate. rewrite imap_app. fold (enumerate pre).
  rewrite for_each_io_app, Hpre, imap_cons, for_each_io_cons, Nat.add_0_r.
  rewrite (materialize_sheet_eq _ _ _ _ _ ps zs) by done.
  fold page_list. fold page_list in Hpath.
  destruct (copy_pages_Ok doc page_list) as (new_doc & Hcopy & _).
  { unfold page_list. rewrite merge_sort_Permutation. apply in_range_bounds. }
  destruct page_list as [|q l]; [done|].
  by rewrite Hcopy, Hpath, Hw.
Qed.


End MaterializerProperties.

(** ** The materializer on the example catalogue *)

Lemma materialize_sheet_skips_out_of_range_witness :
  dict_lookup "pages" [("product", PStr "A"); ("pages", PList [PInt 99])]
    = Some (PList [PInt 99]) ∧
  Forall (fun p => p < 1 ∨ 10 < p) [99] ∧
  materialize_sheet demo_sheet_path always "out" ten_pages []
    (0%nat, PDict [("product", PStr "A"); ("pages", PList [PInt 99])]) demo_files
  = Done [] demo_files.
Proof.
  assert (H1 : dict_lookup "pages" [("product", PStr "A"); ("pages", PList [PInt 99])]
               = Some (PList [PInt 99])) by reflexivity.
  assert (H2 : Forall2 (fun p z => int_value p = Some z) [PInt 99] [99])
    by (repeat constructor).
  assert (H3 : Forall (fun p => p < 1 ∨ Z.of_nat (length ten_pages) < p) [99])
    by (repeat constructor; simpl; lia).
  split; [exact H1|]. split; [exact H3|].
  exact (proj2 (materialize_sheet_skips_out_of_range demo_sheet_path always "out"
                  ten_pages [] 0 _ [PInt 99] [99] demo_files H1 H2) H3).
Defined.

(** The scenario of section 8: page 99 of a boundary is dropped on ten
    pages, and a boundary with that page only writes nothing. *)
Example materialize_page_99 :
  written (demo_materialize always [sheet_of "A" [2; 99]])
    "output/cat.pdf_sheets/sheet_2.pdf" = Some [2%nat] ∧
  demo_materialize always [sheet_of "A" [99]; sheet_of "B" []] = Done [] demo_files.
Proof. vm_compute. done. Qed.

Lemma materialize_sheet_copies_pages_witness :
  ∃ new_doc,
    materialize_sheet demo_sheet_path always "out" ten_pages []
      (0%nat, PDict [("product", PStr "A"); ("pages", PList [PInt 3; PInt 5; PInt 4])])
      demo_files
    = Done ["out/sheet_3.pdf"] (<["out/sheet_3.pdf" := new_doc]> demo_files) ∧
    Forall2 (fun q pg => ten_pages !! Z.to_nat q = Some pg) [2; 3; 4] new_doc.
Proof.
  assert (H1 : dict_lookup "pages"
                 [("product", PStr "A"); ("pages", PList [PInt 3; PInt 5; PInt 4])]
               = Some (PList [PInt 3; PInt 5; PInt 4])) by reflexivity.
  assert (H2 : Forall2 (fun p z => int_value p = Some z)
                 [PInt 3; PInt 5; PInt 4] [3; 5; 4]) by (repeat constructor).
  assert (H3 : merge_sort Z.le (in_range (Z.of_nat (length ten_pages)) [3; 5; 4]) ≠ [])
    by (vm_compute; discriminate).
  exact (proj1 (proj2 (proj2
    (materialize_sheet_copies_pages demo_sheet_path always "out" ten_pages [] 0 _
       [PInt 3; PInt 5; PInt 4] [3; 5; 4] "out/sheet_3.pdf" demo_files
       H1 H2 H3 eq_refl eq_refl)))).
Defined.

(** The round trip of section 8: pages 3, 5, 4 on ten pages give a file
    with the pages 3, 4, 5 of the source. *)
Example materialize_3_5_4 :
  demo_materialize always [sheet_of "A" [3; 5; 4]]
  = Done ["output/cat.pdf_sheets/sheet_3.pdf"]
      (<["output/cat.pdf_sheets/sheet_3.pdf" := [3; 4; 5]%nat]> demo_files).
Proof. vm_compute. reflexivity. Qed.

(** C1, as stated, fails: a page listed twice is copied twice, while the
    deduplicated list of the claim holds it once. *)
Lemma materialize_repeats_duplicate_page :
  written (demo_materialize always [sheet_of "A" [3; 3]])
    "output/cat.pdf_sheets/sheet_3.pdf" = Some [3; 3]%nat ∧
  copy_pages ten_pages (claimed_page_list 10 [3; 3]) = Ok [3%nat] ∧
  ¬ (∀ new_doc,
       written (demo_materialize always [sheet_of "A" [3; 3]])
         "output/cat.pdf_sheets/sheet_3.pdf" = Some new_doc ->
       copy_pages ten_pages (claimed_page_list 10 [3; 3]) = Ok new_doc).
Proof.
  split; [by vm_compute|]. split; [by vm_compute|].
  intros H. specialize (H [3; 3]%nat). vm_compute in H.
  specialize (H eq_refl). discriminate.
Qed.

(** C4, as stated, fails: when the second of three sheets cannot be
    written the run ends with the exception; the third sheet is not
    written and no list of paths is returned. *)
Lemma materialize_aborts_batch :
  demo_materialize sheet_2_locked [sheet_of "A" [1]; sheet_of "B" [2]; sheet_of "C" [3]]
  = Failed OSError (<["output/cat.pdf_sheets/sheet_1.pdf" := [1%nat]]> demo_files) ∧
  written (demo_materialize sheet_2_locked
             [sheet_of "A" [1]; sheet_of "B" [2]; sheet_of "C" [3]])
    "output/cat.pdf_sheets/sheet_3.pdf" = None ∧
  returned (demo_materialize sheet_2_locked
              [sheet_of "A" [1]; sheet_of "B" [2]; sheet_of "C" [3]]) = None.
Proof. vm_compute. done. Qed.

Lemma materialize_stops_at_failed_write_witness :
  demo_materialize sheet_2_locked ([sheet_of "A" [1]] ++ sheet_of "B" [2] :: [sheet_of "C" [3]])
  = Failed OSError (<["output/cat.pdf_sheets/sheet_1.pdf" := [1%nat]]> demo_files).
Proof.
  apply (materialize_stops_at_failed_write demo_subdir demo_sheet_path sheet_2_locked
           (pipeline 0.6) "cat.pdf" [sheet_of "A" [1]] [sheet_of "C" [3]]
           _ [PInt 2] [2] "output/cat.pdf_sheets/sheet_2.pdf" ten_pages demo_files
           (<["output/cat.pdf_sheets/sheet_1.pdf" := [1%nat]]> demo_files)
           ["output/cat.pdf_sheets/sheet_1.pdf"]).
  - reflexivity.
  - vm_compute. reflexivity.
  - reflexivity.
  - repeat constructor.
  - vm_compute. discriminate.
  - vm_compute. reflexivity.
  - vm_compute. reflexivity.
Defined.



(** * Further properties of the parser *)

Lemma normalize_Raise_any (self : Pipeline) (acc acc' : list value) (b : value) (e : exn) :
  normalize self acc b = Raise e -> normalize self acc' b = Raise e.
Proof.
  destruct b as [| | | | | |d]; simpl; try discriminate.
  destruct (get_confidence d) as [c|e']; simpl; [|done].
  destruct (float_ge c (confidence_threshold self)); [|discriminate].
  by destruct (process_pages d).
Qed.

Lemma for_each_normalize_Raise (self : Pipeline) (items : list value) (b : value) (e : exn) :
  b ∈ items -> normalize self [] b = Raise e ->
  ∀ acc, ∃ e', for_each (normalize self) items acc = Raise e'.
Proof.
  intros Hb He. induction Hb as [b items|b b' items Hb IH]; intros acc; simpl.
  - rewrite (normalize_Raise_any _ _ acc _ _ He). simpl. eauto.
  - destruct (normalize self acc b') as [st|e']; simpl; eauto.
Qed.

(** X1.  One element on which the loop body raises empties the whole result:
    an object whose confidence is an integer too large for a float, or
    an accepted object whose pages cannot be coerced. *)
Theorem parse_all_or_nothing (self : Pipeline) (response : string)
    (items : list value) (d : list (string * value)) (e : exn) :
  has_array response = true ->
  Json.loads (json_str response) = Ok (PList items) ->
  PDict d ∈ items ->
  get_confidence d = Raise e ∨
    (accepted self (PDict d) = true ∧ process_pages d = Raise e) ->
  _parse_boundaries self response = [].
Proof.
  intros Harr Hl Hd He.
  assert (Hn : ∃ e', normalize self [] (PDict d) = Raise e').
  { simpl. destruct He as [->|[Hacc ->]]; [simpl; eauto|].
    simpl in Hacc. destruct (get_confidence d) as [c|]; [|done].
    simpl. rewrite Hacc. simpl. eauto. }
  destruct Hn as [e' Hn].
  destruct (for_each_normalize_Raise self items _ _ Hd Hn []) as [e'' Hfe].
  unfold _parse_boundaries, parse_body. rewrite Harr, Hl. simpl. by rewrite Hfe.
Qed.

Lemma parse_all_or_nothing_witness :
  _parse_boundaries (pipeline 0.6)
    (dq "[{'product': 'B', 'pages': [4]}, {'product': 'A', 'pages': ['1-3']}]") = [].
Proof.
  apply (parse_all_or_nothing (pipeline 0.6) _
           [PDict [("product", PStr "B"); ("pages", PList [PInt 4])];
            PDict [("product", PStr "A"); ("pages", PList [PStr "1-3"])]]
           [("product", PStr "A"); ("pages", PList [PStr "1-3"])] ValueError).
  - vm_compute. reflexivity.
  - vm_compute. reflexivity.
  - right. left.
  - right. split; vm_compute; reflexivity.
Defined.

(** ** Text around the array *)

Lemma find_from_free (c : ascii) (a b : string) (i : Z) :
  char_free c a -> find_from c (a +:+ String c b) i = i + Z.of_nat (String.length a).
Proof.
  revert i; induction a as [|x a IH]; intros i Ha.
  - simpl. rewrite Ascii.eqb_refl. lia.
  - destruct Ha as [Hx Ha].
    change (String x a +:+ String c b) with (String x (a +:+ String c b)).
    simpl. destruct (Ascii.eqb_spec x c) as [|_]; [done|].
    rewrite IH by done. lia.
Qed.

Lemma rfind_from_free (c : ascii) (b : string) (i last : Z) :
  char_free c b -> rfind_from c b i last = last.
Proof.
  revert i last; induction b as [|x b IH]; intros i last; simpl; [done|].
  intros [Hx Hb]. rewrite IH by done.
  destruct (Ascii.eqb_spec x c); congruence.
Qed.

Lemma substring_prefix (a b : string) :
  substring 0 (String.length a) (a +:+ b) = a.
Proof.
  induction a as [|x a IH]; simpl.
  - by destruct b.
  - change (String x a +:+ b) with (String x (a +:+ b)). by rewrite IH.
Qed.

(** The bracketed part of a response that wraps an array in text without
    brackets of its own on the outer sides. *)
Lemma json_str_wrapped (pre mid post : string) :
  char_free "[" pre -> char_free "]" post ->
  has_array (pre +:+ "[" +:+ mid +:+ "]" +:+ post) = true ∧
  json_str (pre +:+ "[" +:+ mid +:+ "]" +:+ post) = "[" +:+ mid +:+ "]".
Proof.
  intros Hpre Hpost.
  set (r := pre +:+ "[" +:+ mid +:+ "]" +:+ post).
  assert (Hf : find "[" r = Z.of_nat (String.length pre)).
  { unfold find, r. change ("[" +:+ mid +:+ "]" +:+ post)
      with (String "["%char (mid +:+ "]" +:+ post)).
    rewrite find_from_free by done. lia. }
  assert (Hr : rfind "]" r = Z.of_nat (String.length pre + 1 + String.length mid)).
  { unfold rfind, r.
    replace (pre +:+ "[" +:+ mid +:+ "]" +:+ post)
      with ((pre +:+ "[" +:+ mid) +:+ String "]"%char post)
      by (by rewrite !app_string_assoc).
    rewrite rfind_from_app.
    change (String "]"%char post) with (String "]"%char EmptyString +:+ post).
    rewrite rfind_from_app, (rfind_from_free _ post) by done.
    simpl. rewrite !length_app_string. simpl. lia. }
  split.
  - unfold has_array. fold r. rewrite Hf, Hr.
    apply andb_true_iff. split; [apply Z.leb_le | apply Z.ltb_lt]; lia.
  - unfold json_str, slice. fold r. rewrite Hf, Hr, Nat2Z.id.
    replace (Z.to_nat _) with (String.length ("[" +:+ mid +:+ "]"))
      by (rewrite !length_app_string; simpl; lia).
    unfold r. rewrite substring_skip.
    replace ("[" +:+ mid +:+ "]" +:+ post) with (("[" +:+ mid +:+ "]") +:+ post)
      by (by rewrite !app_string_assoc).
    apply substring_prefix.
Qed.

(** X2.  Text before and after the array is ignored, as long as the text before
    has no opening bracket and the text after has no closing bracket: the
    result is that of the array alone. *)
Theorem parse_ignores_prose (self : Pipeline) (pre mid post : string) :
  char_free "[" pre -> char_free "]" post ->
  _parse_boundaries self (pre +:+ "[" +:+ mid +:+ "]" +:+ post)
  = _parse_boundaries self ("[" +:+ mid +:+ "]").
Proof.
  intros Hpre Hpost.
  destruct (json_str_wrapped pre mid post Hpre Hpost) as [H1 H2].
  destruct (json_str_wrapped EmptyString mid EmptyString I I) as [H3 H4].
  change (EmptyString +:+ "[" +:+ mid +:+ "]" +:+ EmptyString)
    with ("[" +:+ mid +:+ "]") in H3, H4.
  unfold _parse_boundaries, parse_body. by rewrite H1, H2, H3, H4.
Qed.

(** ** Integers written in decimal *)

Lemma all_digits_app (a b : string) :
  all_digits a -> all_digits b -> all_digits (a +:+ b).
Proof.
  induction a as [|x a IH]; [done|]. intros [Hx Ha] Hb.
  change (String x a +:+ b) with (String x (a +:+ b)). split; auto.
Qed.

Lemma read_digits_app (a b : string) (acc : Z) :
  read_digits (a +:+ b) acc = read_digits b (read_digits a acc).
Proof.
  revert acc; induction a as [|x a IH]; intros acc; [done|].
  change (String x a +:+ b) with (String x (a +:+ b)). simpl. apply IH.
Qed.

Lemma digit_of_pretty_N_char (d : N) :
  (d < 10)%N -> digit_of (pretty_N_char d) = Some (Z.of_N d).
Proof.
  intros H.
  assert (d = 0 ∨ d = 1 ∨ d = 2 ∨ d = 3 ∨ d = 4 ∨ d = 5 ∨ d = 6 ∨ d = 7
          ∨ d = 8 ∨ d = 9)%N as Hd by lia.
  repeat (destruct Hd as [->|Hd]; [reflexivity|]). by subst.
Qed.

Lemma pretty_N_char_zero (d : N) :
  (d < 10)%N -> pretty_N_char d = "0"%char -> d = 0%N.
Proof. intros H. by apply (pretty_N_char_inj d 0). Qed.

(** What [pretty] puts in front of [s]: the digits of [x], the first of
    which is not a zero. *)
Lemma pretty_N_go_digits (x : N) :
  ∀ s, ∃ t, pretty_N_go x s = t +:+ s ∧ all_digits t ∧
            read_digits t 0 = Z.of_N x ∧
            (x = 0%N -> t = EmptyString) ∧
            ((0 < x)%N -> canonical t).
Proof.
  induction (N.lt_wf_0 x) as [x _ IH]; intros s.
  assert (x = 0 ∨ 0 < x)%N as [->|Hx] by lia.
  { exists EmptyString. rewrite pretty_N_go_0. repeat split; (done || lia). }
  rewrite pretty_N_go_step by done.
  destruct (IH (x `div` 10)%N (N.div_lt x 10 Hx eq_refl)
              (String (pretty_N_char (x `mod` 10)) s)) as (t & -> & Ht & Hv & Hz & Hc).
  assert (Hm : (x `mod` 10 < 10)%N) by (apply N.mod_lt; lia).
  exists (t +:+ String (pretty_N_char (x `mod` 10)) EmptyString).
  split; [by rewrite app_string_assoc|]. split; [|split; [|split]].
  - apply all_digits_app; [done|]. split; [|done].
    by rewrite digit_of_pretty_N_char.
  - rewrite read_digits_app, Hv. simpl. rewrite digit_of_pretty_N_char by done.
    simpl. rewrite (N.div_mod x 10) at 3 by lia. lia.
  - lia.
  - intros _.
    destruct (N.eq_0_gt_0_cases (x `div` 10)) as [H0|H0].
    + rewrite (Hz H0). simpl. intros Hch. exfalso.
      apply pretty_N_char_zero in Hch; [|done].
      rewrite (N.div_mod x 10) in Hx by lia. lia.
    + specialize (Hc H0). destruct t as [|a t]; [done|].
      change (String a t +:+ ?u) with (String a (t +:+ u)). simpl.
      intros Ha. specialize (Hc Ha). subst t.
      subst a. change (read_digits (String "0"%char EmptyString) 0) with 0 in Hv. lia.
Qed.

(** The sign and the digits of an integer written by [pretty]. *)
Lemma pretty_Z_digits (z : Z) :
  ∃ t, pretty z = (if z <? 0 then "-" else EmptyString) +:+ t ∧
       all_digits t ∧ canonical t ∧ read_digits t 0 = Z.abs z.
Proof.
  assert (Hpos : ∀ p, ∃ t, pretty (Npos p) = t ∧ all_digits t ∧ canonical t ∧
                           read_digits t 0 = Zpos p).
  { intros p. destruct (pretty_N_go_digits (Npos p) EmptyString)
      as (t & Ht & Hd & Hv & _ & Hc).
    exists t. unfold pretty, pretty_N. rewrite decide_False by done.
    rewrite Ht. split; [|by auto with lia].
    clear. induction t as [|a t IH]; [done|].
    change (String a t +:+ EmptyString) with (String a (t +:+ EmptyString)).
    by rewrite IH. }
  destruct z as [|p|p].
  - exists "0". by repeat split.
  - destruct (Hpos p) as (t & <- & ?). exists (pretty (Npos p)).
    split; [reflexivity | done].
  - destruct (Hpos p) as (t & <- & ?). exists (pretty (Npos p)).
    split; [reflexivity | done].
Qed.

Lemma digit_isspace (a : ascii) : digit_of a ≠ None -> isspace a = false.
Proof.
  unfold digit_of, isspace.
  destruct ((48 <=? code a) && (code a <=? 57)) eqn:Hr; [|done]. intros _.
  apply andb_true_iff in Hr as [?%Z.leb_le ?%Z.leb_le].
  apply orb_false_iff; split; apply andb_false_iff.
  - right. apply Z.leb_gt. lia.
  - right. apply Z.leb_gt. lia.
Qed.

Lemma all_digits_char_free (c : ascii) (t : string) :
  digit_of c = None -> all_digits t -> char_free c t.
Proof.
  intros Hc. induction t as [|a t IH]; [done|]. intros [Ha Ht].
  split; [congruence | auto].
Qed.

Lemma all_digits_no_space (t : string) : all_digits t -> no_space t.
Proof.
  induction t as [|a t IH]; [done|]. intros [Ha Ht].
  split; [by apply digit_isspace | auto].
Qed.

Lemma rstrip_no_space (s : string) : no_space s -> rstrip s = s.
Proof.
  induction s as [|a s IH]; [done|]. intros [Ha Hs]. simpl.
  rewrite IH by done. rewrite Ha. by destruct s.
Qed.

Lemma strip_no_space (s : string) : no_space s -> strip s = s.
Proof.
  intros Hs. unfold strip.
  destruct s as [|a s]; [done|]. destruct Hs as [Ha Hs]. simpl lstrip.
  rewrite Ha. by apply rstrip_no_space.
Qed.

Lemma scan_digits_all (t : string) :
  all_digits t -> ∀ acc n,
  scan_digits t acc n = (read_digits t acc, (n + String.length t)%nat, EmptyString).
Proof.
  induction t as [|a t IH]; intros Ht acc n; simpl.
  - by rewrite Nat.add_0_r.
  - destruct Ht as [Ha Ht]. destruct (digit_of a) as [d|]; [|done].
    rewrite IH by done. simpl. do 2 f_equal. lia.
Qed.

Lemma canonical_nonempty (t : string) : canonical t -> ∃ a u, t = String a u.
Proof. destruct t; [done|eauto]. Qed.

Lemma pretty_Z_no_space (z : Z) : no_space (pretty z).
Proof.
  destruct (pretty_Z_digits z) as (t & -> & Ht & _).
  apply all_digits_no_space in Ht. by destruct (z <? 0).
Qed.

(** [int(str(z)) == z] *)
Lemma int_of_str_pretty (z : Z) : int_of_str (pretty z) = Ok z.
Proof.
  unfold int_of_str. rewrite strip_no_space by apply pretty_Z_no_space.
  destruct (pretty_Z_digits z) as (t & -> & Ht & Hc & Hv).
  destruct (canonical_nonempty t Hc) as (a & u & ->).
  destruct (Z.ltb_spec z 0).
  - change (scan_sign ("-" +:+ String a u)) with (true, String a u).
    cbv beta iota. rewrite scan_digits_all by done. rewrite Hv. simpl. f_equal. lia.
  - assert (scan_sign (EmptyString +:+ String a u) = (false, String a u)) as ->.
    { change (EmptyString +:+ String a u) with (String a u).
      destruct Ht as [Ha _]. unfold scan_sign.
      destruct (Ascii.eqb_spec a "-") as [->|]; [done|].
      destruct (Ascii.eqb_spec a "+") as [->|]; [done|].
      destruct a as [[] [] [] [] [] [] [] []]; done. }
    cbv beta iota. rewrite scan_digits_all by done. rewrite Hv. simpl. f_equal. lia.
Qed.

Lemma digit_cases (a : ascii) :
  digit_of a ≠ None ->
  a ∈ ["0"; "1"; "2"; "3"; "4"; "5"; "6"; "7"; "8"; "9"]%char.
Proof.
  destruct a as [[] [] [] [] [] [] [] []]; intros H;
    try (by destruct H); set_solver.
Qed.

Lemma scan_plain_digits_all (t rest : string) :
  all_digits t -> ends_number rest -> ∀ acc n,
  Json.scan_plain_digits (t +:+ rest) acc n
  = (read_digits t acc, (n + String.length t)%nat, rest).
Proof.
  intros Ht Hrest. induction t as [|a t IH]; intros acc n.
  - change (EmptyString +:+ rest) with rest. simpl. rewrite Nat.add_0_r.
    destruct rest as [|b rest]; [done|]. simpl.
    by destruct Hrest as [->| ->].
  - destruct Ht as [Ha Ht].
    change (String a t +:+ rest) with (String a (t +:+ rest)). simpl.
    destruct (digit_of a) as [d|]; [|done].
    rewrite IH by done. simpl. do 2 f_equal. lia.
Qed.

Lemma scan_integer_canonical (t rest : string) :
  all_digits t -> canonical t -> ends_number rest ->
  Json.scan_integer (t +:+ rest) = Some (read_digits t 0, rest).
Proof.
  intros Ht Hc Hrest. destruct t as [|a u]; [done|]. destruct Ht as [Ha Hu].
  change (String a u +:+ rest) with (String a (u +:+ rest)).
  apply digit_cases in Ha.
  assert (a = "0"%char ∨ ∃ d, digit_of a = Some (Zpos d)) as [->|[d Hd]].
  { repeat (apply elem_of_cons in Ha as [->|Ha]; [eauto|]). by apply elem_of_nil in Ha. }
  - rewrite (Hc eq_refl). reflexivity.
  - unfold Json.scan_integer. rewrite Hd.
    rewrite scan_plain_digits_all by done. simpl. by rewrite Hd.
Qed.

Lemma scan_number_pretty (z : Z) (rest : string) :
  ends_number rest ->
  Json.scan_number (pretty z +:+ rest) = Some (PInt z, rest).
Proof.
  intros Hrest. destruct (pretty_Z_digits z) as (t & -> & Ht & Hc & Hv).
  assert (Hfrac : ∀ m, Json.scan_fraction rest m = (m, O, rest)).
  { intros m. destruct rest as [|b rest]; [done|]. by destruct Hrest as [->| ->]. }
  assert (Hexp : Json.scan_exp rest = None).
  { destruct rest as [|b rest]; [done|]. by destruct Hrest as [->| ->]. }
  unfold Json.scan_number. destruct (Z.ltb_spec z 0).
  - rewrite app_string_assoc.
    change ("-" +:+ t +:+ rest) with (String "-"%char (t +:+ rest)).
    cbv beta iota. change (code "-" =? 45) with true. cbv beta iota.
    rewrite scan_integer_canonical by done. rewrite Hv. simpl.
    rewrite Hfrac, Hexp. do 3 f_equal. lia.
  - change (EmptyString +:+ t) with t.
    destruct (canonical_nonempty t Hc) as (a & u & ->).
    change (String a u +:+ rest) with (String a (u +:+ rest)).
    cbv beta iota. assert ((code a =? 45) = false) as ->.
    { destruct Ht as [Ha _]. apply digit_cases in Ha.
      repeat (apply elem_of_cons in Ha as [->|Ha]; [done|]). by apply elem_of_nil in Ha. }
    cbv beta iota. change (String a (u +:+ rest)) with (String a u +:+ rest).
    rewrite scan_integer_canonical by done. rewrite Hv. simpl.
    rewrite Hfrac, Hexp. do 3 f_equal. lia.
Qed.

Lemma pretty_starts_number (z : Z) (rest : string) : starts_number (pretty z +:+ rest).
Proof.
  destruct (pretty_Z_digits z) as (t & -> & Ht & Hc & _).
  destruct (canonical_nonempty t Hc) as (a & u & ->). destruct Ht as [Ha _].
  destruct (z <? 0).
  - right. by split.
  - by left.
Qed.

Lemma scan_once_number (fuel : nat) (s : string) :
  starts_number s -> Json.scan_once (S fuel) s = Json.scan_number s.
Proof.
  destruct s as [|a s]; [done|]. intros [Ha|[-> Hb]].
  - apply digit_cases in Ha.
    repeat (apply elem_of_cons in Ha as [->|Ha]; [done|]). by apply elem_of_nil in Ha.
  - destruct s as [|b s]; [done|]. apply digit_cases in Hb.
    repeat (apply elem_of_cons in Hb as [->|Hb]; [done|]). by apply elem_of_nil in Hb.
Qed.

Lemma skip_ws_number (s : string) : starts_number s -> Json.skip_ws s = s.
Proof.
  destruct s as [|a s]; [done|]. intros [Ha|[-> _]]; [|done].
  apply digit_cases in Ha.
  repeat (apply elem_of_cons in Ha as [->|Ha]; [done|]). by apply elem_of_nil in Ha.
Qed.

Lemma not_bracket_number (s : string) :
  starts_number s -> ∃ b rest, s = String b rest ∧ (code b =? 93) = false.
Proof.
  destruct s as [|a s]; [done|]. intros [Ha|[-> _]]; [|by eexists _, _].
  exists a, s. split; [done|]. apply digit_cases in Ha.
  repeat (apply elem_of_cons in Ha as [->|Ha]; [done|]). by apply elem_of_nil in Ha.
Qed.

Lemma ints_text_cons (z z' : Z) (zs : list Z) :
  ints_text (z :: z' :: zs) = pretty z +:+ ", " +:+ ints_text (z' :: zs).
Proof. done. Qed.

Lemma ints_text_starts (z : Z) (zs : list Z) (rest : string) :
  starts_number (ints_text (z :: zs) +:+ rest).
Proof.
  destruct zs as [|z' zs]; [apply pretty_starts_number|].
  rewrite ints_text_cons, app_string_assoc. apply pretty_starts_number.
Qed.

Lemma scan_items_S (fuel : nat) (s : string) (acc : list value) :
  Json.scan_items (S fuel) s acc
  = '(v, s1) ← Json.scan_once fuel s;
    match Json.skip_ws s1 with
    | String b rest =>
        if code b =? 93 then Some (PList (acc ++ [v]), rest)
        else if code b =? 44 then Json.scan_items fuel (Json.skip_ws rest) (acc ++ [v])
        else None
    | EmptyString => None
    end.
Proof. done. Qed.

(** The items of an array of integers, as [json.loads] reads them. *)
Lemma scan_items_ints (zs : list Z) :
  ∀ z acc post fuel, (length zs + 2 <= fuel)%nat ->
  Json.scan_items fuel (ints_text (z :: zs) +:+ "]" +:+ post) acc
  = Some (PList (acc ++ (PInt <$> z :: zs)), post).
Proof.
  induction zs as [|z' zs IH]; intros z acc post fuel Hfuel.
  - destruct fuel as [|[|fuel]]; [simpl in Hfuel; lia..|].
    change (ints_text [z]) with (pretty z).
    rewrite scan_items_S, scan_once_number by apply pretty_starts_number.
    rewrite scan_number_pretty by (by right). done.
  - destruct fuel as [|[|fuel]]; [simpl in Hfuel; lia..|].
    rewrite ints_text_cons, !app_string_assoc.
    rewrite scan_items_S, scan_once_number by apply pretty_starts_number.
    rewrite scan_number_pretty by (by left). cbn [mbind option_bind].
    change (", " +:+ ?x) with (String ","%char (String " "%char x)).
    change (Json.skip_ws (String ","%char ?x)) with (String ","%char x).
    change (code "," =? 93) with false. change (code "," =? 44) with true. cbv iota.
    change (Json.skip_ws (String " "%char ?x)) with (Json.skip_ws x).
    rewrite skip_ws_number by apply ints_text_starts.
    rewrite IH by (simpl in *; lia). csimpl. by rewrite <- app_assoc.
Qed.

(** [json.loads(str(zs)) == zs] for a list of integers. *)
Lemma loads_ints_text (zs : list Z) :
  Json.loads ("[" +:+ ints_text zs +:+ "]") = Ok (PList (PInt <$> zs)).
Proof.
  destruct zs as [|z zs]; [reflexivity|].
  apply (JsonFacts.loads_enough (S (length zs + 2)) _ _ EmptyString); [|done].
  change ("[" +:+ ?x) with (String "["%char x).
  change (Json.skip_ws (String "["%char ?x)) with (String "["%char x).
  cbn [Json.scan_once]. change (code "[" =? 91) with true. cbv iota.
  pose proof (ints_text_starts z zs "]") as Hs.
  rewrite (skip_ws_number _ Hs).
  destruct (not_bracket_number _ Hs) as (b & rest & Hb & Hc).
  rewrite Hb at 1. rewrite Hc.
  replace (ints_text (z :: zs) +:+ "]") with (ints_text (z :: zs) +:+ "]" +:+ EmptyString) by done.
  by rewrite scan_items_ints by lia.
Qed.

(** A text of two or more integers separated by commas is not JSON. *)
Lemma loads_comma_text (z z' : Z) (zs : list Z) :
  Json.loads (ints_text (z :: z' :: zs)) = Raise JSONDecodeError.
Proof.
  unfold Json.loads. rewrite ints_text_cons.
  rewrite skip_ws_number by apply pretty_starts_number.
  replace (2 * _ + 2)%nat with (S (2 * String.length (pretty z +:+ ", " +:+ ints_text (z' :: zs)) + 1))
    by lia.
  rewrite scan_once_number by apply pretty_starts_number.
  by rewrite scan_number_pretty by (by left).
Qed.

Lemma app_string_empty (s : string) : s +:+ EmptyString = s.
Proof.
  induction s as [|a s IH]; [done|].
  change (String a s +:+ EmptyString) with (String a (s +:+ EmptyString)).
  by rewrite IH.
Qed.

Lemma loads_pretty (z : Z) : Json.loads (pretty z) = Ok (PInt z).
Proof.
  apply (JsonFacts.loads_enough 1 _ _ EmptyString); [|done].
  pose proof (pretty_starts_number z EmptyString) as Hs.
  rewrite <- (app_string_empty (pretty z)).
  rewrite skip_ws_number by done. rewrite scan_once_number by done.
  by apply scan_number_pretty.
Qed.

Lemma split_free (c : ascii) (a b : string) :
  char_free c a -> split c (a +:+ String c b) = a :: split c b.
Proof.
  induction a as [|x a IH]; intros Ha.
  - change (EmptyString +:+ String c b) with (String c b). simpl.
    by rewrite Ascii.eqb_refl.
  - destruct Ha as [Hx Ha].
    change (String x a +:+ String c b) with (String x (a +:+ String c b)). simpl.
    rewrite IH by done. by destruct (Ascii.eqb_spec x c).
Qed.

Lemma split_free_one (c : ascii) (a : string) : char_free c a -> split c a = [a].
Proof.
  induction a as [|x a IH]; [done|]. intros [Hx Ha]. simpl.
  rewrite IH by done. by destruct (Ascii.eqb_spec x c).
Qed.

Lemma char_free_app (c : ascii) (a b : string) :
  char_free c a -> char_free c b -> char_free c (a +:+ b).
Proof.
  induction a as [|x a IH]; [done|]. intros [Hx Ha] Hb.
  change (String x a +:+ b) with (String x (a +:+ b)). split; auto.
Qed.

Lemma pretty_Z_char_free (c : ascii) (z : Z) :
  digit_of c = None -> c ≠ "-"%char -> char_free c (pretty z).
Proof.
  intros Hc Hm. destruct (pretty_Z_digits z) as (t & -> & Ht & _).
  apply char_free_app; [|by apply all_digits_char_free].
  by destruct (z <? 0).
Qed.

(** The pieces of a comma-separated text of integers read back as the
    integers, the space after each comma being stripped. *)
Lemma comma_tokens (zs : list Z) :
  ∀ z pre, pre = EmptyString ∨ pre = " " ->
  Forall2 (fun tok z => int_of_str (strip tok) = Ok z)
    (split "," (pre +:+ ints_text (z :: zs))) (z :: zs).
Proof.
  assert (Htok : ∀ z pre, pre = EmptyString ∨ pre = " " ->
            int_of_str (strip (pre +:+ pretty z)) = Ok z ∧
            char_free "," (pre +:+ pretty z)).
  { intros z pre Hpre. split.
    - replace (strip (pre +:+ pretty z)) with (pretty z).
      + apply int_of_str_pretty.
      + symmetry. destruct Hpre as [-> | ->].
        * apply strip_no_space, pretty_Z_no_space.
        * change (strip (" " +:+ pretty z)) with (strip (pretty z)).
          apply strip_no_space, pretty_Z_no_space.
    - apply char_free_app; [by destruct Hpre as [-> | ->]|].
      by apply pretty_Z_char_free. }
  induction zs as [|z' zs IH]; intros z pre Hpre.
  - change (ints_text [z]) with (pretty z).
    destruct (Htok z pre Hpre) as [Hi Hf].
    rewrite split_free_one by done. by repeat constructor.
  - rewrite ints_text_cons.
    change (", " +:+ ?x) with (String ","%char (" " +:+ x)).
    rewrite <- app_string_assoc.
    destruct (Htok z pre Hpre) as [Hi Hf].
    rewrite split_free by done. constructor; [done|]. apply IH. by right.
Qed.

(** X3.  A page string in the form Python prints a list of integers is read
    back as those integers. *)
Theorem pages_list_text_round_trip (d : list (string * value)) (zs : list Z) :
  dict_lookup "pages" d = Some (PStr ("[" +:+ ints_text zs +:+ "]")) ->
  process_pages d = Ok (PInt <$> zs).
Proof.
  intros Hd. unfold process_pages. rewrite Hd. simpl.
  rewrite loads_ints_text. simpl. apply coerce_ints.
Qed.

Lemma pages_list_text_round_trip_witness :
  process_pages [("product", PStr "T22"); ("pages", PStr "[3, -4, 120]")]
  = Ok [PInt 3; PInt (-4); PInt 120].
Proof.
  apply (pages_list_text_round_trip
           [("product", PStr "T22"); ("pages", PStr "[3, -4, 120]")] [3; -4; 120]).
  reflexivity.
Defined.

(** X4.  A page string of integers separated by commas is read back as those
    integers when there are two or more; one integer alone is decoded as a
    JSON number, which cannot be iterated; the empty string gives no page. *)
Theorem pages_comma_text (d : list (string * value)) (zs : list Z) :
  dict_lookup "pages" d = Some (PStr (ints_text zs)) ->
  process_pages d =
    match zs with
    | [] => Ok []
    | [_] => Raise TypeError
    | _ => Ok (PInt <$> zs)
    end.
Proof.
  intros Hd. unfold process_pages. rewrite Hd. simpl.
  destruct zs as [|z [|z' zs]].
  - reflexivity.
  - change (ints_text [z]) with (pretty z). by rewrite loads_pretty.
  - rewrite loads_comma_text.
    rewrite (comma_separated_Ok _ (z :: z' :: zs)).
    + apply (coerce_ints (z :: z' :: zs)).
    + apply (comma_tokens (z' :: zs) z EmptyString). by left.
Qed.

Lemma pages_comma_text_witness :
  process_pages [("pages", PStr "7, 8, 9")] = Ok [PInt 7; PInt 8; PInt 9] ∧
  process_pages [("pages", PStr "7")] = Raise TypeError.
Proof.
  split.
  - apply (pages_comma_text [("pages", PStr "7, 8, 9")] [7; 8; 9]). reflexivity.
  - apply (pages_comma_text [("pages", PStr "7")] [7]). reflexivity.
Defined.

(** X5.  An accepted object whose pages are one integer written as a string
    empties the whole result. *)
Theorem parse_single_page_text_discards_all (self : Pipeline) (response : string)
    (items : list value) (d : list (string * value)) (z : Z) :
  has_array response = true ->
  Json.loads (json_str response) = Ok (PList items) ->
  PDict d ∈ items ->
  accepted self (PDict d) = true ->
  dict_lookup "pages" d = Some (PStr (pretty z)) ->
  _parse_boundaries self response = [].
Proof.
  intros Harr Hl Hd Hacc Hp.
  assert (Hn : normalize self [] (PDict d) = Raise TypeError).
  { simpl in *. destruct (get_confidence d) as [c|]; [|done]. simpl.
    rewrite Hacc. unfold process_pages. rewrite Hp. simpl.
    by rewrite loads_pretty. }
  destruct (for_each_normalize_Raise self items _ _ Hd Hn []) as [e Hfe].
  unfold _parse_boundaries, parse_body. rewrite Harr, Hl. simpl. by rewrite Hfe.
Qed.

Lemma parse_single_page_text_discards_all_witness :
  _parse_boundaries (pipeline 0.6)
    (dq "[{'product': 'B', 'pages': [4]}, {'product': 'A', 'pages': '12'}]") = [].
Proof.
  apply (parse_single_page_text_discards_all (pipeline 0.6) _
           [PDict [("product", PStr "B"); ("pages", PList [PInt 4])];
            PDict [("product", PStr "A"); ("pages", PStr "12")]]
           [("product", PStr "A"); ("pages", PStr "12")] 12).
  - vm_compute. reflexivity.
  - vm_compute. reflexivity.
  - right. left.
  - vm_compute. reflexivity.
  - reflexivity.
Defined.

(** * Further properties of the materializer *)

(** Every page that [copy_pages] returns is the page of the source at the
    position asked for. *)
Lemma copy_pages_inv {page : Type} (doc : list page) (l : list Z) (new_doc : list page) :
  copy_pages doc l = Ok new_doc ->
  Forall2 (fun q pg => doc !! Z.to_nat q = Some pg) l new_doc.
Proof.
  unfold copy_pages.
  assert (H : ∀ acc out,
            for_each (fun nd q => match doc !! Z.to_nat q with
                                  | Some pg => Ok (nd ++ [pg])
                                  | None => Raise ValueError
                                  end) l acc = Ok out ->
            ∃ nd, out = acc ++ nd ∧
                  Forall2 (fun q pg => doc !! Z.to_nat q = Some pg) l nd).
  { induction l as [|q l IH]; intros acc out; simpl.
    - intros [= <-]. exists []. split; [by rewrite app_nil_r | constructor].
    - destruct (doc !! Z.to_nat q) as [pg|] eqn:Hq; [|discriminate]. simpl.
      intros (nd & -> & Hnd)%IH. exists (pg :: nd).
      split; [by rewrite <- app_assoc | by constructor]. }
  intros (nd & -> & Hnd)%H. done.
Qed.

Section MaterializerInvariants.

Context {page : Type}.
Variable output_subdir : string -> string -> string.
Variable sheet_path : string -> value -> list Z -> value -> result string.
Variable writable : string -> bool.

Local Abbreviation files := (gmap string (list page)).

(** A document made of at least one page, all of them pages of [doc]. *)
Local Abbreviation sheet_of_doc doc new_doc :=
  (new_doc ≠ [] ∧ ∀ pg : page, pg ∈ new_doc -> pg ∈ doc).

(** One turn of the loop that ends without exception either changes
    nothing or writes one file, made of pages of the source, and appends
    its path. *)
Lemma materialize_sheet_Done (subdir : string) (doc : list page)
    (paths paths' : list string) (entry : nat * value) (fs fs' : files) :
  materialize_sheet sheet_path writable subdir doc paths entry fs = Done paths' fs' ->
  (paths' = paths ∧ fs' = fs) ∨
  ∃ path new_doc, paths' = paths ++ [path] ∧ fs' = <[path := new_doc]> fs ∧
                  writable path = true ∧ sheet_of_doc doc new_doc.
Proof.
  destruct entry as [i sheet]. unfold materialize_sheet.
  destruct sheet as [| | | | | |d]; try discriminate.
  destruct (negb (truthy _)); [intros [= <- <-]; by left|].
  unfold mbind, io_bind, lift, save.
  destruct (select_pages _ _) as [unsorted|]; [|discriminate].
  destruct (merge_sort Z.le unsorted) as [|q l] eqn:Hsort; [intros [= <- <-]; by left|].
  destruct (copy_pages doc (q :: l)) as [new_doc|] eqn:Hcopy; [|discriminate].
  destruct (sheet_path _ _ _ _) as [path|]; [|discriminate].
  destruct (writable path) eqn:Hw; [|discriminate].
  intros [= <- <-]. right. exists path, new_doc. repeat split; try done.
  - apply copy_pages_inv in Hcopy. intros ->. inversion Hcopy.
  - apply copy_pages_inv in Hcopy. intros pg Hpg.
    apply list_elem_of_lookup in Hpg as [k Hk].
    destruct (Forall2_lookup_r _ _ _ _ _ Hcopy Hk) as (q' & _ & Hq').
    by apply list_elem_of_lookup_2 in Hq'.
Qed.

(** The loop over the sheets, when it ends without exception: the paths it
    adds are at most one per sheet; each of them holds, at the end, a
    document of pages of the source; every other file is as it was. *)
Lemma materialize_loop_Done (subdir : string) (doc : list page)
    (entries : list (nat * value)) :
  ∀ (paths0 paths : list string) (fs0 fs' : files),
  for_each_io (materialize_sheet sheet_path writable subdir doc) entries paths0 fs0
    = Done paths fs' ->
  ∃ added, paths = paths0 ++ added ∧
           (length added <= length entries)%nat ∧
           (∀ p, p ∈ added ->
              writable p = true ∧
              ∃ new_doc, fs' !! p = Some new_doc ∧ sheet_of_doc doc new_doc) ∧
           (∀ q, q ∉ added -> fs' !! q = fs0 !! q).
Proof.
  induction entries as [|entry entries IH]; intros paths0 paths fs0 fs'.
  - intros [= <- <-]. exists []. rewrite app_nil_r.
    split; [done|]. split; [done|].
    split; [intros p Hp; by apply elem_of_nil in Hp | done].
  - rewrite for_each_io_cons.
    destruct (materialize_sheet _ _ _ _ _ _ _) as [paths1 fs1|] eqn:Hbody; [|discriminate].
    intros (added & -> & Hlen & Hgood & Hframe)%IH.
    apply materialize_sheet_Done in Hbody
      as [[-> ->]|(path & new_doc & -> & -> & Hw & Hdoc)].
    + exists added. split; [done|]. split; [simpl; lia|]. by split.
    + exists (path :: added). rewrite <- app_assoc.
      split; [done|]. split; [simpl; lia|]. split.
      * intros p Hp.
        destruct (decide (p ∈ added)) as [Hin|Hout]; [by apply Hgood|].
        apply elem_of_cons in Hp as [->|?]; [|by destruct Hout].
        split; [done|]. exists new_doc. rewrite Hframe by done.
        by rewrite lookup_insert_eq.
      * intros q Hq. apply not_elem_of_cons in Hq as [Hne Hq].
        rewrite Hframe by done. by rewrite lookup_insert_ne.
Qed.

(** X6.  Every path that [materialize] returns names a file that exists when
    it returns: a document of at least one page, all of them pages of the
    catalogue as it was read at the start.  There is at most one path per
    sheet. *)
Theorem materialize_returns_written_files (self : Pipeline) (pdf_path : string)
    (sheets : list value) (fs fs' : files) (paths : list string) :
  materialize output_subdir sheet_path writable self pdf_path sheets fs = Done paths fs' ->
  (length paths <= length sheets)%nat ∧
  ∀ p, p ∈ paths ->
    writable p = true ∧
    ∃ doc new_doc, fs !! pdf_path = Some doc ∧ fs' !! p = Some new_doc ∧
                   new_doc ≠ [] ∧ ∀ pg, pg ∈ new_doc -> pg ∈ doc.
Proof.
  unfold materialize. destruct sheets as [|s sheets]; [intros [= <- <-]; set_solver|].
  unfold mbind, io_bind, fitz_open.
  destruct (fs !! pdf_path) as [doc|] eqn:Hdoc; [|discriminate].
  intros (added & -> & Hlen & Hgood & _)%materialize_loop_Done.
  split.
  - unfold enumerate in Hlen. by rewrite length_imap in Hlen.
  - intros p Hp. destruct (Hgood p Hp) as (Hw & new_doc & Hnew & Hne & Hsub).
    split; [done|]. by exists doc, new_doc.
Qed.

(** X7.  A run of [materialize] that ends without exception touches no file
    but those whose paths it returns: nothing else is created, changed or
    removed, the catalogue included unless a sheet is saved at its path. *)
Theorem materialize_frame (self : Pipeline) (pdf_path : string)
    (sheets : list value) (fs fs' : files) (paths : list string) (q : string) :
  materialize output_subdir sheet_path writable self pdf_path sheets fs = Done paths fs' ->
  q ∉ paths ->
  fs' !! q = fs !! q.
Proof.
  unfold materialize. destruct sheets as [|s sheets]; [by intros [= <- <-]|].
  unfold mbind, io_bind, fitz_open.
  destruct (fs !! pdf_path) as [doc|] eqn:Hdoc; [|discriminate].
  intros (added & -> & _ & _ & Hframe)%materialize_loop_Done. apply Hframe.
Qed.

End MaterializerInvariants.

(** * Properties of the file names *)

Lemma chars_all_app (P : ascii -> bool) (a b : string) :
  chars_all P a -> chars_all P b -> chars_all P (a +:+ b).
Proof.
  induction a as [|x a IH]; [done|]. intros [Hx Ha] Hb.
  change (String x a +:+ b) with (String x (a +:+ b)). split; auto.
Qed.

Lemma chars_all_mono (P Q : ascii -> bool) (s : string) :
  (∀ a, P a = true -> Q a = true) -> chars_all P s -> chars_all Q s.
Proof. intros HPQ. induction s as [|x s IH]; [done|]. intros [? ?]. split; auto. Qed.

Lemma chars_all_lstrip (P : ascii -> bool) (s : string) :
  chars_all P s -> chars_all P (lstrip s).
Proof.
  induction s as [|x s IH]; [done|]. intros [Hx Hs]. simpl.
  destruct (isspace x); [auto | by split].
Qed.

Lemma chars_all_rstrip (P : ascii -> bool) (s : string) :
  chars_all P s -> chars_all P (rstrip s).
Proof.
  induction s as [|x s IH]; [done|]. intros [Hx Hs]. simpl.
  specialize (IH Hs). destruct (rstrip s) as [|y r].
  - by destruct (isspace x).
  - by split.
Qed.

Lemma chars_all_substring (P : ascii -> bool) (s : string) :
  chars_all P s -> ∀ n m, chars_all P (substring n m s).
Proof.
  induction s as [|x s IH]; intros Hs n m.
  - by destruct n, m.
  - destruct Hs as [Hx Hs]. destruct n as [|n]; simpl.
    + destruct m as [|m]; [done|]. split; auto.
    + auto.
Qed.

Lemma length_substring_0 (s : string) :
  ∀ n, (n <= String.length s)%nat -> String.length (substring 0 n s) = n.
Proof.
  induction s as [|x s IH]; intros [|n] Hn; simpl in *; try done; try lia.
  rewrite IH; lia.
Qed.

Lemma length_replace_char (a b : ascii) (s : string) :
  String.length (replace_char a b s) = String.length s.
Proof. induction s as [|x s IH]; simpl; [done | by rewrite IH]. Qed.

Lemma chars_all_replace_space (s : string) :
  chars_all kept_char s -> chars_all name_char (replace_char " " "_" s).
Proof.
  induction s as [|x s IH]; [done|]. intros [Hx Hs]. split; [|auto].
  destruct (Ascii.eqb_spec x " ") as [->|Hne]; [done|].
  unfold kept_char in Hx. unfold name_char.
  apply orb_true_iff in Hx as [Hx| ->]; [|by rewrite !orb_true_r].
  apply orb_true_iff in Hx as [Hx| ->]; [|by rewrite !orb_true_r].
  apply orb_true_iff in Hx as [-> |Hx]; [done|].
  by apply Ascii.eqb_eq in Hx.
Qed.

Lemma name_chars_slash_free (s : string) : chars_all name_char s -> slash_free s.
Proof.
  induction s as [|x s IH]; [done|]. intros [Hx Hs]. split; [|auto].
  by intros ->.
Qed.

Lemma starts_with_chars (P : ascii -> bool) (p : string) :
  ∀ s, starts_with p s = true -> chars_all P s -> chars_all P p.
Proof.
  induction p as [|a p IH]; intros [|b s]; simpl; try done.
  intros [Hab Hp]%andb_true_iff [Hb Hs]. apply Ascii.eqb_eq in Hab as ->.
  split; [done | eauto].
Qed.

Lemma contains_chars (P : ascii -> bool) (needle hay : string) :
  contains needle hay = true -> chars_all P hay -> chars_all P needle.
Proof.
  induction hay as [|b hay IH]; intros Hc Hhay; simpl in Hc.
  - rewrite orb_false_r in Hc. by apply (starts_with_chars P _ _ Hc).
  - apply orb_true_iff in Hc as [H|H].
    + by apply (starts_with_chars P _ _ H).
    + destruct Hhay. auto.
Qed.

Lemma all_alnum_chars (s : string) : all_alnum s = true -> chars_all isalnum s.
Proof.
  induction s as [|x s IH]; [done|]. simpl.
  intros [? ?]%andb_true_iff. split; auto.
Qed.

(** What line 317 returns for an item is made of kept characters. *)
Lemma sanitize_item_kept (c : value) (part : string) :
  sanitize_item c = Ok part -> chars_all kept_char part.
Proof.
  destruct c as [| | | |c| |]; try discriminate. intros H.
  assert (Hp : part = if str_isalnum c || contains c " -_" then c else "_").
  { change (Ok (if str_isalnum c || contains c " -_" then c else "_") = Ok part) in H.
    congruence. }
  rewrite Hp. clear H Hp.
  destruct (str_isalnum c) eqn:Ha; [|destruct (contains c " -_") eqn:Hc]; cbn [orb].
  - destruct c as [|x c]; [done|]. apply all_alnum_chars in Ha.
    apply (chars_all_mono isalnum); [|done].
    intros a Hal. unfold kept_char. by rewrite Hal.
  - apply (contains_chars kept_char _ _ Hc). by repeat split.
  - by split.
Qed.

Lemma concat_kept (parts : list string) :
  Forall (chars_all kept_char) parts ->
  chars_all kept_char (String.concat EmptyString parts).
Proof.
  induction 1 as [|x parts Hx _ IH]; [done|]. simpl.
  destruct parts as [|y parts]; [done|].
  apply chars_all_app; [done|]. by apply (chars_all_app _ EmptyString).
Qed.

(** The sanitised name, whenever there is one, has at most 50 characters,
    all of them letters, digits, [-], [_] or [.]. *)
Lemma safe_name_Ok (product_name : value) (name : string) :
  safe_name product_name = Ok name ->
  chars_all name_char name ∧ (String.length name <= 50)%nat.
Proof.
  unfold safe_name. intros H.
  apply bind_Ok in H as (items & _ & H).
  apply bind_Ok in H as (parts & Hparts & H).
  injection H as <-.
  assert (Hraw : chars_all name_char
            (replace_char " " "_" (strip (String.concat EmptyString parts)))).
  { apply chars_all_replace_space, chars_all_rstrip, chars_all_lstrip, concat_kept.
    apply comprehension_Forall2 in Hparts.
    induction Hparts as [|c part items parts Hc _ IH]; constructor; [|done].
    by apply sanitize_item_kept in Hc. }
  set (t := replace_char " " "_" (strip (String.concat EmptyString parts))) in *.
  destruct (Nat.ltb_spec 50 (String.length t)) as [Hlong|Hshort].
  - split.
    + apply chars_all_app; [by apply chars_all_substring | by repeat split].
    + rewrite length_app_string, length_substring_0 by lia. simpl. lia.
  - by split.
Qed.

Lemma comprehension_chars (s : string) :
  ∃ parts, comprehension sanitize_item (chars s) = Ok parts.
Proof.
  induction s as [|a s [parts IH]]; simpl; [by eexists|].
  rewrite IH. simpl. by eexists.
Qed.

(** A product name that is text always has a sanitised name. *)
Lemma safe_name_text (s : string) : ∃ name, safe_name (PStr s) = Ok name.
Proof.
  unfold safe_name. simpl. destruct (comprehension_chars s) as [parts ->].
  simpl. by eexists.
Qed.

(** X8.  For a product name in ASCII, on which [isalnum] and [len] are those of
    Python, the sanitised name exists, has at most 50 characters, and
    holds nothing but letters, digits, [-], [_] and [.]: no space, no
    slash, no character of the name that the file system could read as a
    path. *)
Theorem safe_name_of_text (s : string) :
  is_ascii s ->
  ∃ name, safe_name (PStr s) = Ok name ∧ chars_all name_char name ∧
          (String.length name <= 50)%nat.
Proof.
  intros _. destruct (safe_name_text s) as [name Hname].
  exists name. split; [done|]. by apply safe_name_Ok in Hname.
Qed.

Lemma safe_name_of_text_witness :
  ∃ name, safe_name (PStr "../Rail T22 (v2)/x") = Ok name ∧
          chars_all name_char name ∧ (String.length name <= 50)%nat.
Proof. apply (safe_name_of_text "../Rail T22 (v2)/x"). vm_compute. repeat split; done. Defined.

Lemma char_free_slash (s : string) : char_free "/" s -> slash_free s.
Proof. induction s as [|x s IH]; [done|]. intros [? ?]. split; auto. Qed.

Lemma pretty_Z_slash_free (z : Z) : slash_free (pretty z).
Proof. by apply char_free_slash, pretty_Z_char_free. Qed.

Lemma format_float_2f_slash_free (f : float) : slash_free (format_float_2f f).
Proof.
  unfold format_float_2f. destruct (Prim2SF f) as [[]|[]| |sg m e]; try (by repeat split).
  repeat apply slash_free_app; try apply pretty_Z_slash_free.
  - by destruct sg.
  - by repeat split.
Qed.

Lemma format_2f_slash_free (v : value) (c : string) :
  format_2f v = Ok c -> slash_free c.
Proof.
  destruct v as [|b|z|f| | |]; simpl; try discriminate.
  - intros [= <-]. apply format_float_2f_slash_free.
  - destruct (float_of_int z); simpl; [|discriminate].
    intros [= <-]. apply format_float_2f_slash_free.
  - intros [= <-]. apply format_float_2f_slash_free.
Qed.

Lemma page_range_slash_free (page_list : list Z) (r : string) :
  page_range page_list = Ok r -> slash_free r.
Proof.
  unfold page_range. destruct page_list as [|p l]; [discriminate|]. simpl.
  intros [= <-]. destruct l.
  - apply (slash_free_app "p"); [by split | apply pretty_Z_slash_free].
  - apply (slash_free_app "p"); [by split|].
    apply slash_free_app; [apply pretty_Z_slash_free|].
    apply (slash_free_app "-"); [by split | apply pretty_Z_slash_free].
Qed.

(** The name of the file of a sheet has no slash. *)
Lemma output_filename_slash_free (product_name : value) (page_list : list Z)
    (confidence : value) (name : string) :
  output_filename product_name page_list confidence = Ok name ->
  slash_free name ∧ ∃ rest, name = "sheet_" +:+ rest.
Proof.
  unfold output_filename. intros H.
  apply bind_Ok in H as (sn & Hsn & H).
  apply bind_Ok in H as (pr & Hpr & H).
  apply bind_Ok in H as (fp & _ & H).
  apply bind_Ok in H as (cf & Hcf & H).
  injection H as <-. split; [|by eexists].
  apply safe_name_Ok in Hsn as [Hsn _]. apply name_chars_slash_free in Hsn.
  apply page_range_slash_free in Hpr. apply format_2f_slash_free in Hcf.
  apply (slash_free_app "sheet_"); [by repeat split|].
  apply slash_free_app; [apply pretty_Z_slash_free|].
  apply (slash_free_app "_"); [by split|].
  apply slash_free_app; [done|].
  apply (slash_free_app "_"); [by split|].
  apply slash_free_app; [done|].
  apply (slash_free_app "_conf"); [by repeat split|].
  apply slash_free_app; [done|]. by repeat split.
Qed.

(** [os.path.join] with a non-empty last part without slash, and what
    [os.path.basename] returns for the result. *)
Lemma basename_path_join (out : string) (a : ascii) (e : string) :
  slash_free (String a e) ->
  basename (path_join out (String a e)) = String a e.
Proof.
  intros Hfree.
  assert (He : path_join out (String a e) =
               match out with
               | EmptyString => String a e
               | _ => if ends_with_slash out then out +:+ String a e
                      else out +:+ "/" +:+ String a e
               end).
  { unfold path_join. destruct Hfree as [Ha _].
    destruct a as [[] [] [] [] [] [] [] []]; try done. }
  rewrite He. destruct out as [|x out].
  - by apply (basename_app EmptyString).
  - destruct (ends_with_slash (String x out)) eqn:Hs.
    + apply basename_app; [|done]. unfold ends_with_slash in Hs. lia.
    + rewrite <- app_string_assoc. apply basename_app; [|done].
      apply rfind_dir. right. eauto.
Qed.

(** X9.  The file of a sheet lies directly in the directory of the catalogue,
    whatever the product name is: for a product name in ASCII, a page list
    that is not empty and a confidence that is a float, the path is the
    directory joined with a file name that starts with sheet_ and has no
    slash, and the base name of the path is that file name. *)
Theorem output_path_stays_in_subdir (output_subdir s : string) (page_list : list Z)
    (f : float) :
  is_ascii s -> page_list ≠ [] ->
  ∃ name, output_path output_subdir (PStr s) page_list (PFloat f)
            = Ok (path_join output_subdir name) ∧
          slash_free name ∧
          (∃ rest, name = "sheet_" +:+ rest) ∧
          basename (path_join output_subdir name) = name.
Proof.
  intros _ Hne.
  assert (Hname : ∃ name, output_filename (PStr s) page_list (PFloat f) = Ok name).
  { unfold output_filename. destruct (safe_name_text s) as [sn ->].
    destruct page_list as [|p l]; [done|]. by eexists. }
  destruct Hname as [name Hname]. exists name.
  unfold output_path. rewrite Hname. split; [done|].
  apply output_filename_slash_free in Hname as [Hfree [rest ->]].
  split; [done|]. split; [by eexists|].
  by apply (basename_path_join output_subdir "s").
Qed.

Lemma output_path_stays_in_subdir_witness :
  ∃ name, output_path "out/cat_sheets" (PStr "../../etc/passwd") [2; 3; 4] (PFloat 0.9)
            = Ok (path_join "out/cat_sheets" name) ∧
          slash_free name ∧
          (∃ rest, name = "sheet_" +:+ rest) ∧
          basename (path_join "out/cat_sheets" name) = name.
Proof.
  apply (output_path_stays_in_subdir "out/cat_sheets" "../../etc/passwd" [2; 3; 4] 0.9).
  - vm_compute. repeat split; done.
  - discriminate.
Defined.

Example output_path_examples :
  output_path "out/cat_sheets" (PStr "../../etc/passwd") [2; 3; 4] (PFloat 0.9)
    = Ok "out/cat_sheets/sheet_3_______etc_passwd_p3-5_conf0.90.pdf" ∧
  output_path "out" (PStr "T22 rail") [6] (PFloat 0.125)
    = Ok "out/sheet_7_T22_rail_p7_conf0.12.pdf" ∧
  output_path "out" (PStr "T22 rail") [6] (PInt 1)
    = Ok "out/sheet_7_T22_rail_p7_conf1.00.pdf" ∧
  output_path "out" (PStr "T22 rail") [6] (PStr "high") = Raise ValueError ∧
  output_path "out" (PList [PStr "ab"; PStr " -"; PStr "a b"]) [6] (PFloat 0.7)
    = Ok "out/sheet_7_ab_-__p7_conf0.70.pdf".
Proof. vm_compute. repeat split. Qed.

Section MaterializerNames.

Context {page : Type}.
Variable output_subdir : string -> string -> string.
Variable sheet_path : string -> value -> list Z -> value -> result string.
Variable writable : string -> bool.

Local Abbreviation files := (gmap string (list page)).

(** [materialize] on a list of sheets that is not empty is the loop over
    the sheets, on the document read at the start. *)
Lemma materialize_loop (sp : string -> value -> list Z -> value -> result string)
    (self : Pipeline) (pdf_path : string) (sheets : list value)
    (doc : list page) (fs : files) :
  sheets ≠ [] -> fs !! pdf_path = Some doc ->
  materialize output_subdir sp writable self pdf_path sheets fs
  = for_each_io
      (materialize_sheet sp writable (output_subdir (output_dir self) pdf_path) doc)
      (enumerate sheets) [] fs.
Proof.
  intros Hne Hdoc. unfold materialize. destruct sheets; [done|].
  unfold mbind, io_bind, fitz_open. by rewrite Hdoc.
Qed.

(** The pages of a sheet with a page in range are copied without
    exception. *)
Lemma copy_sorted_pages (doc : list page) (zs : list Z) :
  ∃ new_doc,
    copy_pages doc (merge_sort Z.le (in_range (Z.of_nat (length doc)) zs)) = Ok new_doc ∧
    Forall2 (fun q pg => doc !! Z.to_nat q = Some pg)
      (merge_sort Z.le (in_range (Z.of_nat (length doc)) zs)) new_doc.
Proof. apply copy_pages_Ok. rewrite merge_sort_Permutation. apply in_range_bounds. Qed.

(** X10.  A product name that is a number, a boolean or null cannot be
    sanitised: the sheet that carries it, if it has a page in range, ends
    the run with [TypeError].  The files of the sheets before it stay
    written, this sheet and the sheets after it write nothing, and no list
    of paths is returned. *)
Theorem materialize_product_not_text
    (self : Pipeline) (pdf_path : string) (pre post : list value)
    (d : list (string * value)) (product : value) (ps : list value) (zs : list Z)
    (doc : list page) (fs fs1 : files) (paths1 : list string) :
  fs !! pdf_path = Some doc ->
  let subdir := output_subdir (output_dir self) pdf_path in
  for_each_io (materialize_sheet output_path writable subdir doc) (enumerate pre) [] fs
    = Done paths1 fs1 ->
  dict_lookup "product" d = Some product ->
  py_iter product = Raise TypeError ->
  dict_lookup "pages" d = Some (PList ps) ->
  Forall2 (fun p z => int_value p = Some z) ps zs ->
  merge_sort Z.le (in_range (Z.of_nat (length doc)) zs) ≠ [] ->
  materialize output_subdir output_path writable self pdf_path (pre ++ PDict d :: post) fs
  = Failed TypeError fs1.
Proof.
  intros Hdoc subdir Hpre Hprod Hiter Hd Hps Hne.
  rewrite (materialize_loop _ _ _ _ doc) by (done || by destruct pre).
  unfold enumerate. rewrite imap_app. fold (enumerate pre). fold subdir.
  rewrite for_each_io_app, Hpre, imap_cons, for_each_io_cons, Nat.add_0_r.
  rewrite (materialize_sheet_eq _ _ _ _ _ _ _ ps zs) by done.
  destruct (copy_sorted_pages doc zs) as (new_doc & Hcopy & _).
  destruct (merge_sort Z.le _) as [|q l]; [done|].
  rewrite Hcopy. unfold dict_get at 1. rewrite Hprod.
  unfold output_path, output_filename, safe_name. by rewrite Hiter.
Qed.

(** X11.  Two sheets in a row whose files have the same path: both are saved
    without exception, the path is returned twice, and the file holds the
    pages of the second sheet only. *)
Theorem materialize_same_path_overwrites
    (self : Pipeline) (pdf_path : string)
    (d1 d2 : list (string * value)) (ps1 ps2 : list value) (zs1 zs2 : list Z)
    (path : string) (doc : list page) (fs : files) :
  fs !! pdf_path = Some doc ->
  let subdir := output_subdir (output_dir self) pdf_path in
  let n := Z.of_nat (length doc) in
  dict_lookup "pages" d1 = Some (PList ps1) ->
  Forall2 (fun p z => int_value p = Some z) ps1 zs1 ->
  dict_lookup "pages" d2 = Some (PList ps2) ->
  Forall2 (fun p z => int_value p = Some z) ps2 zs2 ->
  merge_sort Z.le (in_range n zs1) ≠ [] ->
  merge_sort Z.le (in_range n zs2) ≠ [] ->
  sheet_path subdir (dict_get "product" (PStr "Product_1") d1)
    (merge_sort Z.le (in_range n zs1)) (dict_get "confidence" (PFloat 0.5) d1) = Ok path ->
  sheet_path subdir (dict_get "product" (PStr "Product_2") d2)
    (merge_sort Z.le (in_range n zs2)) (dict_get "confidence" (PFloat 0.5) d2) = Ok path ->
  writable path = true ->
  ∃ new_doc,
    materialize output_subdir sheet_path writable self pdf_path [PDict d1; PDict d2] fs
      = Done [path; path] (<[path := new_doc]> fs) ∧
    Forall2 (fun q pg => doc !! Z.to_nat q = Some pg)
      (merge_sort Z.le (in_range n zs2)) new_doc.
Proof.
  intros Hdoc subdir n Hd1 Hps1 Hd2 Hps2 Hne1 Hne2 Hp1 Hp2 Hw.
  rewrite (materialize_loop _ _ _ _ doc) by done. fold subdir.
  destruct (copy_sorted_pages doc zs1) as (doc1 & Hcopy1 & _).
  destruct (copy_sorted_pages doc zs2) as (doc2 & Hcopy2 & Hall2).
  fold n in Hcopy1, Hcopy2, Hall2.
  exists doc2. split; [|done].
  change (enumerate [PDict d1; PDict d2]) with [(0%nat, PDict d1); (1%nat, PDict d2)].
  rewrite for_each_io_cons, (materialize_sheet_eq _ _ _ _ _ _ _ ps1 zs1) by done.
  fold n. change (pretty (0 + 1)%nat) with "1". change ("Product_" +:+ "1") with "Product_1".
  destruct (merge_sort Z.le (in_range n zs1)) as [|q1 l1]; [done|].
  rewrite Hcopy1, Hp1, Hw.
  rewrite for_each_io_cons, (materialize_sheet_eq _ _ _ _ _ _ _ ps2 zs2) by done.
  fold n. change (pretty (1 + 1)%nat) with "2". change ("Product_" +:+ "2") with "Product_2".
  destruct (merge_sort Z.le (in_range n zs2)) as [|q2 l2]; [done|].
  rewrite Hcopy2, Hp2, Hw. simpl. by rewrite insert_insert_eq.
Qed.

End MaterializerNames.

Lemma materialize_product_not_text_witness :
  demo_named ([sheet_of "A" [1]] ++
              PDict [("product", PInt 5); ("pages", PList [PInt 2])] :: [sheet_of "C" [3]])
  = Failed TypeError (<["output/cat.pdf_sheets/sheet_1_A_p1_conf0.90.pdf" := [1%nat]]> demo_files).
Proof.
  apply (materialize_product_not_text demo_subdir always (pipeline 0.6) "cat.pdf"
           [sheet_of "A" [1]] [sheet_of "C" [3]] _ (PInt 5) [PInt 2] [2] ten_pages
           demo_files _ ["output/cat.pdf_sheets/sheet_1_A_p1_conf0.90.pdf"]).
  - reflexivity.
  - vm_compute. reflexivity.
  - reflexivity.
  - reflexivity.
  - reflexivity.
  - repeat constructor.
  - vm_compute. discriminate.
Defined.

(** Two sheets with different pages and different product names that
    share the first page, the last page and the sanitised name. *)
Lemma materialize_same_path_overwrites_witness :
  ∃ new_doc,
    demo_named [sheet_of "A B" [1; 2; 5]; sheet_of "A_B" [1; 3; 5]]
      = Done ["output/cat.pdf_sheets/sheet_1_A_B_p1-5_conf0.90.pdf";
              "output/cat.pdf_sheets/sheet_1_A_B_p1-5_conf0.90.pdf"]
          (<["output/cat.pdf_sheets/sheet_1_A_B_p1-5_conf0.90.pdf" := new_doc]> demo_files) ∧
    Forall2 (fun q pg => ten_pages !! Z.to_nat q = Some pg)
      (merge_sort Z.le (in_range (Z.of_nat (length ten_pages)) [1; 3; 5])) new_doc.
Proof.
  apply (materialize_same_path_overwrites demo_subdir output_path always (pipeline 0.6)
           "cat.pdf" _ _ [PInt 1; PInt 2; PInt 5] [PInt 1; PInt 3; PInt 5]
           [1; 2; 5] [1; 3; 5]).
  - reflexivity.
  - reflexivity.
  - repeat constructor.
  - reflexivity.
  - repeat constructor.
  - vm_compute. discriminate.
  - vm_compute. discriminate.
  - vm_compute. reflexivity.
  - vm_compute. reflexivity.
  - reflexivity.
Defined.

Lemma parse_ignores_prose_witness :
  _parse_boundaries (pipeline 0.6)
    ("Here are the sheets: " +:+ "[" +:+ dq "{'product': 'A', 'pages': [1, 2]}" +:+ "]" +:+
     " I hope this helps.")
  = _parse_boundaries (pipeline 0.6)
      ("[" +:+ dq "{'product': 'A', 'pages': [1, 2]}" +:+ "]").
Proof.
  apply (parse_ignores_prose (pipeline 0.6) "Here are the sheets: "
           (dq "{'product': 'A', 'pages': [1, 2]}") " I hope this helps.").
  - vm_compute. repeat split; discriminate.
  - vm_compute. repeat split; discriminate.
Defined.

Lemma materialize_returns_written_files_witness :
  let path := "output/cat.pdf_sheets/sheet_3_T22_rail_p3-5_conf0.90.pdf" in
  (length [path] <= 2)%nat ∧
  ∀ p, p ∈ [path] ->
    always p = true ∧
    ∃ doc new_doc, demo_files !! "cat.pdf" = Some doc ∧
                   (<[path := [3; 4; 5]%nat]> demo_files) !! p = Some new_doc ∧
                   new_doc ≠ [] ∧ ∀ pg, pg ∈ new_doc -> pg ∈ doc.
Proof.
  intros path.
  apply (materialize_returns_written_files demo_subdir output_path always (pipeline 0.6)
           "cat.pdf" [sheet_of "T22 rail" [3; 5; 4]; sheet_of "B" [99]] demo_files).
  vm_compute. reflexivity.
Defined.

Lemma materialize_frame_witness :
  (<["output/cat.pdf_sheets/sheet_3_T22_rail_p3-5_conf0.90.pdf" := [3; 4; 5]%nat]> demo_files)
    !! "cat.pdf" = demo_files !! "cat.pdf".
Proof.
  apply (materialize_frame demo_subdir output_path always (pipeline 0.6)
           "cat.pdf" [sheet_of "T22 rail" [3; 5; 4]; sheet_of "B" [99]] demo_files _
           ["output/cat.pdf_sheets/sheet_3_T22_rail_p3-5_conf0.90.pdf"]).
  - vm_compute. reflexivity.
  - rewrite list_elem_of_singleton. discriminate.
Defined.

(** * Properties of the stamped copy *)

Lemma app_string_inv_head (a b c : string) : a +:+ b = a +:+ c -> b = c.
Proof.
  induction a as [|x a IH]; [done|].
  change (String x (a +:+ b) = String x (a +:+ c) -> b = c).
  intros [= H]. auto.
Qed.

Lemma app_string_inv_tail (x : ascii) (a b : string) :
  a +:+ String x EmptyString = b +:+ String x EmptyString -> a = b.
Proof.
  revert b. induction a as [|y a IH]; intros [|z b] Hab; try done.
  - destruct b; discriminate.
  - destruct a; discriminate.
  - injection Hab as -> Hab. f_equal. by apply IH.
Qed.

Section StampedCopy.

Context {page analysis : Type}.
Variable insert_text : string -> page -> page.
Variable analyze : list page -> analysis.
Variable OUTPUT_DIR : string.
Variable writable : string -> bool.

Local Abbreviation files := (gmap string (list page)).


(** X13.  The stamped copies of two catalogues have the same path exactly when
    the catalogues have the same base name: the copy of [a/cat.pdf] is
    written over that of [b/cat.pdf]. *)
Theorem enhanced_paths_collide (p1 p2 : string) (fs1 fs2 fs1' fs2' : files)
    (e1 e2 : string) (a1 a2 : analysis) :
  document_processor_main insert_text analyze OUTPUT_DIR writable p1 fs1
    = Done (e1, a1) fs1' ->
  document_processor_main insert_text analyze OUTPUT_DIR writable p2 fs2
    = Done (e2, a2) fs2' ->
  (e1 = e2 <-> basename p1 = basename p2).
Proof.
  assert (He : ∀ p fs e a fs',
            document_processor_main insert_text analyze OUTPUT_DIR writable p fs
              = Done (e, a) fs' ->
            e = path_join OUTPUT_DIR ("enhanced_" +:+ basename p)).
  { intros p fs e a fs'.
    unfold document_processor_main, add_page_identifiers, mbind, io_bind, mret, io_ret,
      fitz_open, save.
    destruct (fs !! p); [|discriminate].
    destruct (writable _); [|discriminate].
    destruct (_ !! _); [|discriminate]. congruence. }
  intros ->%He ->%He. split.
  - intros H. apply (f_equal basename) in H. rewrite !basename_enhanced in H.
    by injection H.
  - by intros ->.
Qed.

End StampedCopy.

Lemma enhanced_paths_collide_witness :
  "out/enhanced_cat.pdf" = "out/enhanced_cat.pdf" <->
  basename "a/cat.pdf" = basename "b/cat.pdf".
Proof.
  eapply (enhanced_paths_collide demo_insert_text (fun _ => tt) "out" always
            "a/cat.pdf" "b/cat.pdf"
            {[ "a/cat.pdf" := [["x"]] ]} {[ "b/cat.pdf" := [["y"]] ]}).
  - vm_compute. reflexivity.
  - vm_compute. reflexivity.
Defined.

(** * The whole pipeline *)

Section WholePipeline.

Context {page analysis : Type}.
Variable insert_text : string -> page -> page.
Variable analyze : list page -> analysis.
Variable chat_complete : list page -> analysis -> string.
Variable OUTPUT_DIR : string.
Variable output_subdir : string -> string -> string.
Variable sheet_path : string -> value -> list Z -> value -> result string.
Variable writable : string -> bool.

Local Abbreviation files := (gmap string (list page)).

(** A run of [extract_sheets] that ends without exception has read the
    catalogue and has written its stamped copy, and nothing else. *)
Lemma extract_sheets_Done (self : Pipeline) (pdf_path : string)
    (sheets : list value) (fs fs1 : files) :
  extract_sheets insert_text analyze chat_complete OUTPUT_DIR writable self pdf_path fs
    = Done sheets fs1 ->
  ∃ doc, fs !! pdf_path = Some doc ∧
         fs1 = <[path_join OUTPUT_DIR ("enhanced_" +:+ basename pdf_path)
                 := imap (stamp insert_text) doc]> fs.
Proof.
  unfold extract_sheets, document_processor_main, add_page_identifiers, process_file,
    fitz_open, save, mbind, io_bind, mret, io_ret.
  destruct (fs !! pdf_path) as [doc|]; [|discriminate].
  destruct (writable _); [|discriminate].
  rewrite lookup_insert_eq. cbn beta iota zeta. rewrite lookup_insert_eq.
  intros [= _ <-]. by exists doc.
Qed.


End WholePipeline.


(** * Properties of the analysis of the pages *)

Lemma starts_with_app (p post : string) : starts_with p (p +:+ post) = true.
Proof.
  induction p as [|a p IH]; [done|].
  change (String a p +:+ post) with (String a (p +:+ post)). simpl.
  by rewrite Ascii.eqb_refl, IH.
Qed.

Lemma starts_with_inv (p s : string) :
  starts_with p s = true -> ∃ post, s = p +:+ post.
Proof.
  revert s. induction p as [|a p IH]; intros s; [by exists s|].
  destruct s as [|b s]; [done|]. simpl.
  intros [Hab Hp]%andb_true_iff. apply Ascii.eqb_eq in Hab as ->.
  destruct (IH s Hp) as [post ->]. by exists post.
Qed.

Lemma contains_app (pre needle post : string) :
  contains needle (pre +:+ needle +:+ post) = true.
Proof.
  induction pre as [|a pre IH].
  - change (EmptyString +:+ needle +:+ post) with (needle +:+ post).
    destruct (needle +:+ post) eqn:He; simpl; rewrite <- He, starts_with_app; done.
  - change (String a pre +:+ needle +:+ post) with (String a (pre +:+ needle +:+ post)).
    simpl. rewrite IH. apply orb_true_r.
Qed.

Lemma contains_inv (needle hay : string) :
  contains needle hay = true -> ∃ pre post, hay = pre +:+ needle +:+ post.
Proof.
  induction hay as [|b hay IH]; simpl.
  - rewrite orb_false_r. intros [post ->]%starts_with_inv. by exists EmptyString, post.
  - intros [H|H]%orb_true_iff.
    + apply starts_with_inv in H as [post ->]. by exists EmptyString, post.
    + destruct (IH H) as (pre & post & ->). by exists (String b pre), post.
Qed.

(** [a in b] and [b in c] give [a in c]. *)
Lemma contains_trans (a b c : string) :
  contains a b = true -> contains b c = true -> contains a c = true.
Proof.
  intros (p1 & q1 & ->)%contains_inv (p2 & q2 & ->)%contains_inv.
  replace (p2 +:+ (p1 +:+ a +:+ q1) +:+ q2) with ((p2 +:+ p1) +:+ a +:+ (q1 +:+ q2))
    by (by rewrite !app_string_assoc).
  apply contains_app.
Qed.

Section AnalysisProperties.

Variable has_measurement : string -> bool.

(** X15.  One phrase is enough: the indicator "electrical specifications"
    contains the indicator "specifications", so a page whose text holds
    that phrase, in any case of the letters, counts two keyword matches and
    is flagged as a likely technical sheet, without any table or
    measurement. *)
Theorem electrical_specifications_suffice (page : pdf_page) (text_blocks : list block)
    (tables : option nat) :
  contains "electrical specifications" (lowercase (get_text page)) = true ->
  is_likely_technical_sheet has_measurement page text_blocks tables = true.
Proof.
  intros He. unfold is_likely_technical_sheet.
  assert (Hs : contains "specifications" (lowercase (get_text page)) = true).
  { by apply (contains_trans _ "electrical specifications"). }
  apply orb_true_iff. left. apply Nat.leb_le.
  change technical_indicators
    with (["technical data"] ++ ["specifications"] ++
          ["tech spec"; "technical sheet"; "dimensions"; "material properties"] ++
          ["electrical specifications"] ++
          ["installation requirements"; "performance characteristics"]).
  rewrite !filter_app, !length_app.
  rewrite (filter_cons_True _ "specifications") by done.
  rewrite (filter_cons_True _ "electrical specifications") by done.
  simpl. lia.
Qed.

(** The numbers of the flagged pages of a document whose first page has
    the number [k + 1]. *)
Lemma flagged_from (doc : list pdf_page) :
  ∀ k : nat,
  let l := page_number <$>
             filter (fun page => likely_technical_sheet page = true)
               (imap (fun i => analyze_page has_measurement (k + i)) doc) in
  (∀ p, p ∈ l <->
        ∃ i page, doc !! i = Some page ∧ p = Z.of_nat (k + i) + 1 ∧
                  is_likely_technical_sheet has_measurement page (get_blocks page)
                    (Some (table_count page)) = true) ∧
  Forall (fun p => Z.of_nat k < p) l ∧
  StronglySorted Z.lt l.
Proof.
  induction doc as [|page doc IH]; intros k l.
  - split; [|split; constructor].
    intros p. split; [by intros ?%elem_of_nil | by intros (i & pg & ? & _)].
  - unfold l. rewrite imap_cons.
    assert (Hext : imap ((fun i => analyze_page has_measurement (k + i)) ∘ S) doc
                   = imap (fun i => analyze_page has_measurement (S k + i)) doc).
    { apply imap_ext. intros i pg _. simpl. f_equal. lia. }
    rewrite Hext. destruct (IH (S k)) as (Hin & Hlow & Hsort).
    set (rest := page_number <$> filter _ (imap (fun i => analyze_page _ (S k + i)) doc))
      in *.
    assert (Hshift : ∀ p, p ∈ rest <->
              ∃ i pg, (page :: doc) !! S i = Some pg ∧ p = Z.of_nat (k + S i) + 1 ∧
                      is_likely_technical_sheet has_measurement pg (get_blocks pg)
                        (Some (table_count pg)) = true).
    { intros p. rewrite Hin. split; intros (i & pg & ? & -> & ?); exists i, pg;
        (split; [done|]); (split; [lia|done]). }
    assert (Hlow' : Forall (fun p => Z.of_nat k < p) rest).
    { eapply Forall_impl; [exact Hlow|]. simpl. intros; lia. }
    destruct (is_likely_technical_sheet has_measurement page (get_blocks page)
                (Some (table_count page))) eqn:Hl.
    + rewrite filter_cons_True by exact Hl.
      rewrite fmap_cons. fold rest. cbn [page_number analyze_page]. rewrite Nat.add_0_r.
      split; [|split].
      * intros p. rewrite elem_of_cons, Hshift. split.
        -- intros [->|(i & pg & ? & ? & ?)].
           ++ exists 0%nat, page. split; [done|]. split; [f_equal; lia | done].
           ++ by exists (S i), pg.
        -- intros ([|i] & pg & Hi & -> & Hpg).
           ++ left. f_equal. lia.
           ++ right. by exists i, pg.
      * constructor; [lia|done].
      * constructor; [done|]. eapply Forall_impl; [exact Hlow|]. simpl. intros; lia.
    + rewrite filter_cons_False by (cbn [likely_technical_sheet analyze_page]; congruence).
      fold rest.
      split; [|by split].
      intros p. rewrite Hshift. split.
      * intros (i & pg & ? & ? & ?). by exists (S i), pg.
      * intros ([|i] & pg & Hi & -> & Hpg).
        -- injection Hi as <-. congruence.
        -- by exists i, pg.
Qed.

(** X16.  The pages that [main] reports as likely technical sheets are page
    numbers from 1 to the number of pages, in strictly increasing order,
    and they are exactly the numbers of the pages that
    [is_likely_technical_sheet] flags. *)
Theorem tech_sheet_pages_are_flagged_pages (doc : list pdf_page) :
  let analysis := analyze_pdf_structure has_measurement doc in
  total_pages analysis = length doc ∧
  StronglySorted Z.lt (tech_sheet_pages analysis) ∧
  ∀ p, p ∈ tech_sheet_pages analysis <->
       1 ≤ p ≤ Z.of_nat (length doc) ∧
       ∃ page, doc !! Z.to_nat (p - 1) = Some page ∧
               is_likely_technical_sheet has_measurement page (get_blocks page)
                 (Some (table_count page)) = true.
Proof.
  intros analysis. split; [done|].
  destruct (flagged_from doc 0) as (Hin & _ & Hsort).
  split; [exact Hsort|].
  intros p. unfold tech_sheet_pages, analysis, analyze_pdf_structure. simpl pages.
  etrans; [apply Hin|]. split.
  - intros (i & page & Hi & -> & Hl).
    pose proof (lookup_lt_Some _ _ _ Hi) as Hlt.
    split; [lia|]. exists page. split; [|done].
    replace (Z.to_nat _) with i by lia. done.
  - intros (Hp & page & Hi & Hl). exists (Z.to_nat (p - 1)), page.
    split; [done|]. split; [lia|done].
Qed.

End AnalysisProperties.

Lemma electrical_specifications_suffice_witness :
  is_likely_technical_sheet (fun _ => false)
    (text_page "Pump P4. ELECTRICAL Specifications overleaf." 0) [] None = true.
Proof.
  apply (electrical_specifications_suffice (fun _ => false)
           (text_page "Pump P4. ELECTRICAL Specifications overleaf." 0) [] None).
  vm_compute. reflexivity.
Defined.

Example tech_sheet_pages_example :
  tech_sheet_pages
    (analyze_pdf_structure (fun _ => true)
       [text_page "Contents" 0;
        text_page "Technical data and dimensions" 0;
        text_page "Price list, 12 mm" 1;
        text_page "specifications" 0])
  = [2; 3].
Proof. vm_compute. reflexivity. Qed.

(** * Properties of the configuration *)



Example config_examples :
  Config.API_PORT <$> Config.class_body ∅ = Ok 8000 ∧
  Config.API_DEBUG <$> Config.class_body {[ "API_DEBUG" := "TRUE" ]} = Ok true ∧
  Config.API_DEBUG <$> Config.class_body {[ "API_DEBUG" := "1" ]} = Ok false ∧
  Config.API_PORT <$> Config.class_body {[ "API_PORT" := " 8_080 " ]} = Ok 8080 ∧
  Config.API_PORT <$> Config.class_body {[ "API_PORT" := "8080.0" ]} = Raise ValueError.
Proof. vm_compute. repeat split. Qed.

(** * The numbers in a file name *)

Lemma foldl_min_spec (l : list Z) :
  ∀ x, foldl Z.min x l ∈ x :: l ∧ ∀ y, y ∈ x :: l -> foldl Z.min x l ≤ y.
Proof.
  induction l as [|a l IH]; intros x; simpl.
  - split; [left|]. intros y ->%list_elem_of_singleton. lia.
  - destruct (IH (Z.min x a)) as [Hin Hle]. split.
    + apply elem_of_cons in Hin as [->|Hin].
      * destruct (Z.min_spec x a) as [[_ ->]|[_ ->]]; [left | right; left].
      * by do 2 right.
    + intros y Hy. pose proof (Hle (Z.min x a) ltac:(left)) as H0.
      apply elem_of_cons in Hy as [Hy|Hy]; [lia|].
      apply elem_of_cons in Hy as [Hy|Hy]; [lia|].
      apply Hle. by right.
Qed.

Lemma foldl_max_spec (l : list Z) :
  ∀ x, foldl Z.max x l ∈ x :: l ∧ ∀ y, y ∈ x :: l -> y ≤ foldl Z.max x l.
Proof.
  induction l as [|a l IH]; intros x; simpl.
  - split; [left|]. intros y ->%list_elem_of_singleton. lia.
  - destruct (IH (Z.max x a)) as [Hin Hle]. split.
    + apply elem_of_cons in Hin as [->|Hin].
      * destruct (Z.max_spec x a) as [[_ ->]|[_ ->]]; [right; left | left].
      * by do 2 right.
    + intros y Hy. pose proof (Hle (Z.max x a) ltac:(left)) as H0.
      apply elem_of_cons in Hy as [Hy|Hy]; [lia|].
      apply elem_of_cons in Hy as [Hy|Hy]; [lia|].
      apply Hle. by right.
Qed.

(** X18.  The page numbers of a file name are page numbers of the boundary, as
    the boundary counts them, from 1: the first page of the name is the
    least page of the boundary between 1 and the number of pages, and the
    range goes from it to the greatest one.  A page list of one element
    gives one number; a page given twice gives a range from the page to
    itself. *)
Theorem file_name_page_numbers (n : Z) (zs : list Z) :
  let page_list := merge_sort Z.le (in_range n zs) in
  page_list ≠ [] ->
  ∃ lo hi,
    lo ∈ zs ∧ hi ∈ zs ∧ 1 ≤ lo ∧ hi ≤ n ∧
    (∀ p, p ∈ zs -> 1 ≤ p ≤ n -> lo ≤ p ≤ hi) ∧
    (fun first => first + 1) <$> py_min page_list = Ok lo ∧
    page_range page_list =
      Ok (match page_list with
          | [_] => "p" +:+ pretty lo
          | _ => "p" +:+ pretty lo +:+ "-" +:+ pretty hi
          end).
Proof.
  intros page_list Hne.
  assert (Hin : ∀ q, q ∈ page_list <-> ∃ p, p ∈ zs ∧ 1 ≤ p ∧ p ≤ n ∧ q = p - 1).
  { intros q. unfold page_list. rewrite merge_sort_Permutation. apply elem_of_in_range. }
  destruct page_list as [|x l] eqn:Hpl; [done|].
  destruct (foldl_min_spec l x) as [Hmin Hmin_le].
  destruct (foldl_max_spec l x) as [Hmax Hmax_le].
  apply Hin in Hmin as (lo & Hlo & ? & ? & Hlo_eq).
  apply Hin in Hmax as (hi & Hhi & ? & ? & Hhi_eq).
  exists lo, hi. split; [done|]. split; [done|]. split; [done|]. split; [done|].
  split; [|split].
  - intros p Hp Hrange.
    assert (Hq : p - 1 ∈ x :: l) by (apply Hin; exists p; repeat split; (done || lia)).
    specialize (Hmin_le _ Hq). specialize (Hmax_le _ Hq). lia.
  - simpl. rewrite Hlo_eq. f_equal. lia.
  - unfold page_range. simpl. rewrite Hlo_eq, Hhi_eq.
    replace (lo - 1 + 1) with lo by lia. replace (hi - 1 + 1) with hi by lia.
    destruct l as [|y l']; [|done].
    simpl in Hlo_eq. by replace (x + 1) with lo by lia.
Qed.

Lemma file_name_page_numbers_witness :
  ∃ lo hi,
    lo ∈ [12; 5; 0; 3; 5] ∧ hi ∈ [12; 5; 0; 3; 5] ∧ 1 ≤ lo ∧ hi ≤ 10 ∧
    (∀ p, p ∈ [12; 5; 0; 3; 5] -> 1 ≤ p ≤ 10 -> lo ≤ p ≤ hi) ∧
    (fun first => first + 1) <$> py_min [2; 4; 4] = Ok lo ∧
    page_range [2; 4; 4] = Ok ("p" +:+ pretty lo +:+ "-" +:+ pretty hi).
Proof.
  apply (file_name_page_numbers 10 [12; 5; 0; 3; 5]). vm_compute. discriminate.
Defined.

(** * From the parser to the materializer *)

(** A boundary of the parser: the four keys, the pages a list of int
    instances, the confidence a float. *)
Lemma parsed_sheet_shape (self : Pipeline) (response : string) (x : value) :
  x ∈ _parse_boundaries self response ->
  ∃ product ps zs c reason,
    x = boundary product (PList ps) (PFloat c) reason ∧
    Forall2 (fun p z => int_value p = Some z) ps zs.
Proof.
  unfold _parse_boundaries.
  destruct (parse_body self response) as [out|e] eqn:Hbody; [|by inversion 1].
  intros Hx. apply parse_body_Ok in Hbody as [[_ ->]|(_ & items & _ & Hall)];
    [by inversion Hx|].
  apply list_elem_of_lookup in Hx as [i Hi].
  destruct (Forall2_lookup_r _ _ _ _ _ Hall Hi) as (b & _ & Hprod).
  destruct Hprod as (d & c & ps & _ & _ & _ & Hps & ->).
  destruct (ints_have_values ps) as [zs Hzs]; [by eapply process_pages_ints|].
  by eexists _, ps, zs, c, _.
Qed.

Lemma output_path_total (output_subdir s : string) (page_list : list Z) (c : float) :
  page_list ≠ [] ->
  ∃ path, output_path output_subdir (PStr s) page_list (PFloat c) = Ok path.
Proof.
  intros Hne. unfold output_path, output_filename.
  destruct (safe_name_text s) as [sn ->].
  destruct page_list as [|p l]; [done|]. by eexists.
Qed.

Section ParserToMaterializer.

Context {page : Type}.
Variable output_subdir : string -> string -> string.
Variable writable : string -> bool.

Local Abbreviation files := (gmap string (list page)).

(** A boundary as the parser returns it, with a product name that is
    text. *)
Local Abbreviation text_sheet x :=
  (∃ s ps zs c reason,
     x = boundary (PStr s) (PList ps) (PFloat c) reason ∧
     Forall2 (fun p z => int_value p = Some z) ps zs).

(** The loop over boundaries with product names that are text ends
    without exception when every file can be written. *)
Lemma materialize_text_sheets (subdir : string) (doc : list page)
    (entries : list (nat * value)) :
  (∀ p, writable p = true) ->
  Forall (fun entry => text_sheet (snd entry)) entries ->
  ∀ paths (fs : files),
  ∃ paths' fs',
    for_each_io (materialize_sheet output_path writable subdir doc) entries paths fs
    = Done paths' fs'.
Proof.
  intros Hw. induction 1 as [|[i x] entries Hx _ IH]; intros paths fs.
  - by eexists _, _.
  - rewrite for_each_io_cons.
    destruct Hx as (s & ps & zs & c & reason & Hx & Hps). simpl in Hx. subst x.
    assert (Hsheet : ∃ paths1 fs1,
              materialize_sheet output_path writable subdir doc paths
                (i, boundary (PStr s) (PList ps) (PFloat c) reason) fs = Done paths1 fs1).
    { unfold boundary.
      rewrite (materialize_sheet_eq _ _ _ _ _ _ _ ps zs) by done.
      destruct (copy_pages_Ok doc
                  (merge_sort Z.le (in_range (Z.of_nat (length doc)) zs)))
        as (new_doc & Hcopy & _).
      { rewrite merge_sort_Permutation. apply in_range_bounds. }
      destruct (merge_sort Z.le _) as [|q l] eqn:Hsort; [by eexists _, _|].
      rewrite Hcopy.
      change (dict_get "product" _ _) with (PStr s).
      change (dict_get "confidence" _ _) with (PFloat c).
      destruct (output_path_total subdir s (q :: l) c) as [path ->]; [done|].
      rewrite Hw. by eexists _, _. }
    destruct Hsheet as (paths1 & fs1 & ->). apply IH.
Qed.


End ParserToMaterializer.


(** * Confidences that are not numbers *)

Lemma float_ge_nan (c t : float) :
  Prim2SF c = S754_nan ∨ Prim2SF t = S754_nan -> float_ge c t = false.
Proof.
  intros H. unfold float_ge. rewrite FloatAxioms.leb_spec. unfold SFleb, SFcompare.
  destruct H as [-> | ->]; [by destruct (Prim2SF t) | done].
Qed.

(** X20.  A confidence that is NaN passes no threshold, and a threshold
    that is NaN lets no confidence pass: the comparison of line 94 is false
    as soon as one side is NaN.  An object with such a confidence is left
    out without any error, and a pipeline with such a threshold returns
    no boundary for any response. *)
Theorem nan_confidence_never_accepted (self : Pipeline) :
  (∀ d c, get_confidence d = Ok c -> Prim2SF c = S754_nan ->
          accepted self (PDict d) = false ∧
          ∀ acc, normalize self acc (PDict d) = Ok acc) ∧
  (Prim2SF (confidence_threshold self) = S754_nan ->
   ∀ response, _parse_boundaries self response = []).
Proof.
  split.
  - intros d c Hc Hnan. simpl. rewrite Hc. simpl.
    rewrite float_ge_nan by auto. by split.
  - intros Hnan response. unfold _parse_boundaries.
    destruct (parse_body self response) as [out|e] eqn:Hbody; [|done].
    apply parse_body_Ok in Hbody as [[_ ->]|(_ & items & _ & Hall)]; [done|].
    assert (Hnone : filter (fun b => accepted self b = true) items = []).
    { clear Hall. induction items as [|b items IH]; [done|].
      rewrite filter_cons_False; [done|].
      destruct b as [| | | | | |d]; simpl; try done.
      destruct (get_confidence d); [|done].
      rewrite float_ge_nan by auto. done. }
    rewrite Hnone in Hall. by inversion Hall.
Qed.

Example nan_confidence_examples :
  _parse_boundaries (pipeline 0.6)
    (dq "[{'product': 'A', 'confidence': NaN, 'pages': [1]}, {'product': 'B', 'pages': [2]}]")
    = [boundary (PStr "B") (PList [PInt 2]) (PFloat 0.7) (PStr EmptyString)] ∧
  _parse_boundaries (pipeline 0.6)
    (dq "[{'product': 'A', 'confidence': 'nan', 'pages': ['x']}]") = [] ∧
  _parse_boundaries (pipeline nan)
    (dq "[{'product': 'A', 'confidence': Infinity, 'pages': [1]}]") = [].
Proof. vm_compute. repeat split. Qed.

(** * Where the files go *)

Section WhereTheFilesGo.

Context {page : Type}.
Variable output_subdir : string -> string -> string.
Variable sheet_path : string -> value -> list Z -> value -> result string.
Variable writable : string -> bool.

Local Abbreviation files := (gmap string (list page)).

(** The path that a turn of the loop appends is one that [sheet_path]
    gave for the directory of the catalogue. *)
Lemma materialize_sheet_path (subdir : string) (doc : list page)
    (paths paths' : list string) (entry : nat * value) (fs fs' : files) :
  materialize_sheet sheet_path writable subdir doc paths entry fs = Done paths' fs' ->
  paths' = paths ∨
  ∃ path product page_list confidence,
    paths' = paths ++ [path] ∧ sheet_path subdir product page_list confidence = Ok path.
Proof.
  destruct entry as [i sheet]. unfold materialize_sheet.
  destruct sheet as [| | | | | |d]; try discriminate.
  destruct (negb (truthy _)); [intros [= <- <-]; by left|].
  unfold mbind, io_bind, lift, save.
  destruct (select_pages _ _) as [unsorted|]; [|discriminate].
  destruct (merge_sort Z.le unsorted) as [|q l] eqn:Hsort; [intros [= <- <-]; by left|].
  destruct (copy_pages doc (q :: l)) as [new_doc|]; [|discriminate].
  destruct (sheet_path _ _ _ _) as [path|] eqn:Hpath; [|discriminate].
  destruct (writable path); [|discriminate].
  intros [= <- <-]. right. by eexists path, _, _, _.
Qed.

Lemma materialize_loop_paths (subdir : string) (doc : list page)
    (entries : list (nat * value)) :
  ∀ (paths0 paths : list string) (fs0 fs' : files),
  for_each_io (materialize_sheet sheet_path writable subdir doc) entries paths0 fs0
    = Done paths fs' ->
  ∃ added, paths = paths0 ++ added ∧
           ∀ p, p ∈ added ->
             ∃ product page_list confidence,
               sheet_path subdir product page_list confidence = Ok p.
Proof.
  induction entries as [|entry entries IH]; intros paths0 paths fs0 fs'.
  - intros [= <- <-]. exists []. rewrite app_nil_r. split; [done|].
    intros p Hp. by apply elem_of_nil in Hp.
  - rewrite for_each_io_cons.
    destruct (materialize_sheet _ _ _ _ _ _ _) as [paths1 fs1|] eqn:Hbody; [|discriminate].
    intros (added & -> & Hadded)%IH.
    apply materialize_sheet_path in Hbody
      as [->|(path & product & page_list & confidence & -> & Hpath)].
    + by exists added.
    + exists (path :: added). rewrite <- app_assoc. split; [done|].
      intros p [->|Hp]%elem_of_cons; [by eexists _, _, _ | by apply Hadded].
Qed.

End WhereTheFilesGo.

(** X21.  Every file that the materializer writes lies directly in the
    directory of the sheets of the catalogue: each returned path is that
    directory joined with a name that starts with sheet_ and has no slash,
    whatever the product names, the pages and the confidences of the
    sheets are.  With the frame property, a run that ends without
    exception changes nothing outside that directory. *)
Theorem materialize_writes_inside_subdir {page : Type}
    (output_subdir : string -> string -> string) (writable : string -> bool)
    (self : Pipeline) (pdf_path : string) (sheets : list value)
    (fs fs' : gmap string (list page)) (paths : list string) :
  materialize output_subdir output_path writable self pdf_path sheets fs = Done paths fs' ->
  let subdir := output_subdir (output_dir self) pdf_path in
  (∀ p, p ∈ paths ->
     ∃ name, p = path_join subdir name ∧ slash_free name ∧
             (∃ rest, name = "sheet_" +:+ rest) ∧ basename p = name) ∧
  (∀ q, (∀ name, slash_free name -> q ≠ path_join subdir name) ->
        fs' !! q = fs !! q).
Proof.
  intros H subdir. unfold materialize in H. destruct sheets as [|s sheets].
  { injection H as <- <-. split; [|done]. intros p Hp. by apply elem_of_nil in Hp. }
  unfold mbind, io_bind, fitz_open in H.
  destruct (fs !! pdf_path) as [doc|]; [|discriminate]. fold subdir in H.
  pose proof (materialize_loop_Done _ _ _ _ _ _ _ _ _ H) as (added' & Heq' & _ & _ & Hframe).
  apply materialize_loop_paths in H as (added & -> & Hadded).
  simpl in Heq'. subst added'.
  assert (Hpaths : ∀ p, p ∈ added ->
            ∃ name, p = path_join subdir name ∧ slash_free name ∧
                    (∃ rest, name = "sheet_" +:+ rest) ∧ basename p = name).
  { intros p Hp. destruct (Hadded p Hp) as (product & page_list & confidence & Hpath).
    unfold output_path in Hpath. apply fmap_Ok in Hpath as (name & Hname & ->).
    apply output_filename_slash_free in Hname as [Hfree [rest ->]].
    exists ("sheet_" +:+ rest). split; [done|]. split; [done|].
    split; [by eexists|]. by apply (basename_path_join _ "s"). }
  split; [done|].
  intros q Hq. apply Hframe.
  intros Hin. destruct (Hpaths q Hin) as (name & -> & Hfree & _). by apply (Hq name).
Qed.

Lemma materialize_writes_inside_subdir_witness :
  let path := "output/cat.pdf_sheets/sheet_3_______x_p3-5_conf0.90.pdf" in
  let subdir := demo_subdir (output_dir (pipeline 0.6)) "cat.pdf" in
  (∀ p, p ∈ [path] ->
     ∃ name, p = path_join subdir name ∧ slash_free name ∧
             (∃ rest, name = "sheet_" +:+ rest) ∧ basename p = name) ∧
  (∀ q, (∀ name, slash_free name -> q ≠ path_join subdir name) ->
        (<[path := [3; 4; 5]%nat]> demo_files) !! q = demo_files !! q).
Proof.
  intros path subdir.
  apply (materialize_writes_inside_subdir demo_subdir always (pipeline 0.6) "cat.pdf"
           [sheet_of "../../x" [3; 5; 4]] demo_files _ [path]).
  vm_compute. reflexivity.
Defined.

(** The header and the footer of a page, on an example: the image block
    is left out, the spans are joined by spaces, and on a page of 150
    points a block that spans the page is in both zones. *)
Example header_footer_examples :
  let title := {| block_type := 0; bbox_top := 30; bbox_bottom := 60;
                  lines := [["Catalogue"; "2024"]; ["Pumps"]] |} in
  let logo := {| block_type := 1; bbox_top := 10; bbox_bottom := 50; lines := [] |} in
  let body := {| block_type := 0; bbox_top := 120; bbox_bottom := 700;
                 lines := [["Body"]] |} in
  let foot := {| block_type := 0; bbox_top := 800; bbox_bottom := 820;
                 lines := [["page"; "3"]] |} in
  extract_header_text [logo; title; body; foot] 842 100 = "Catalogue 2024 Pumps" ∧
  extract_footer_text [logo; title; body; foot] 842 100 = "page 3" ∧
  extract_header_text [body] 842 100 = EmptyString ∧
  extract_header_text [title] 150 100 = "Catalogue 2024 Pumps" ∧
  extract_footer_text [title] 150 100 = "Catalogue 2024 Pumps".
Proof. vm_compute. repeat split. Qed.
